(** * indenti: indentation-aware writers and an XML/HTML element builder

    A shallow embedding of [indenti.py] (the module is Python 3: it calls
    [super().__init__] without arguments) and the properties of its
    string builder, indent engine and markup elements.

    Python values are modelled as follows.
    - [str]: [string]; a character is a code point below 256.
    - [int]: [Z] (Python integers are unbounded).
    - [None]-or-string: [option string].
    - a [list] of strings: [list string].
    - an [OrderedDict] / [dict] with string keys: an association list in
      iteration order.
    - an object mutated by a method: the method returns the object after
      the call; a method that can raise also returns the exception. *)

From Stdlib Require Import ZArith List String Ascii Bool Lia Permutation.
Import ListNotations.
Set Warnings "-register-all".
Open Scope string_scope.
Open Scope Z_scope.

(** ** Python built-ins used by the module *)
Module Py.

Definition LF : ascii := "010"%char.
Definition CR : ascii := "013"%char.
Definition TAB : ascii := "009"%char.
Definition DQUOTE : ascii := "034"%char.
Definition SQUOTE : ascii := "039"%char.

(** [s * n] for a string [s] and an integer [n]: empty when [n <= 0]. *)
Fixpoint str_mul_nat (s : string) (n : nat) : string :=
  match n with
  | O => ""
  | S k => s ++ str_mul_nat s k
  end.

Definition str_mul (s : string) (n : Z) : string :=
  str_mul_nat s (Z.to_nat n).

(** [sep.join(parts)]. *)
Definition join (sep : string) (parts : list string) : string :=
  String.concat sep parts.

(** [c in s] for a one-character [c]. *)
Fixpoint contains (c : ascii) (s : string) : bool :=
  match s with
  | EmptyString => false
  | String x r => Ascii.eqb x c || contains c r
  end.

(** [s.replace(c, new)] for a one-character [c]. *)
Fixpoint replace (c : ascii) (new : string) (s : string) : string :=
  match s with
  | EmptyString => EmptyString
  | String x r =>
      if Ascii.eqb x c then new ++ replace c new r
      else String x (replace c new r)
  end.

(** [s.split(c)] for a one-character separator: always at least one piece. *)
Fixpoint split_from (c : ascii) (cur : string) (s : string) : list string :=
  match s with
  | EmptyString => [cur]
  | String x r =>
      if Ascii.eqb x c then cur :: split_from c "" r
      else split_from c (cur ++ String x "") r
  end.

Definition split (c : ascii) (s : string) : list string := split_from c "" s.

(** [filter(None, xs)] on strings keeps the non-empty ones. *)
Definition truthy (s : string) : bool :=
  match s with EmptyString => false | _ => true end.

(** The line boundaries of [str.splitlines] among code points below 256:
    LF, VT, FF, CR, FS, GS, RS and NEL; CR LF counts as one boundary. *)
Definition is_linebreak (c : ascii) : bool :=
  let n := nat_of_ascii c in
  (Nat.eqb n 10 || Nat.eqb n 11 || Nat.eqb n 12 || Nat.eqb n 13
   || Nat.eqb n 28 || Nat.eqb n 29 || Nat.eqb n 30 || Nat.eqb n 133)%bool.

Fixpoint splitlines_from (cur : string) (s : string) : list string :=
  match s with
  | EmptyString => if truthy cur then [cur] else []
  | String x r =>
      if Ascii.eqb x CR then
        match r with
        | String y r' =>
            if Ascii.eqb y LF then cur :: splitlines_from "" r'
            else cur :: splitlines_from "" r
        | EmptyString => cur :: splitlines_from "" r
        end
      else if is_linebreak x then cur :: splitlines_from "" r
      else splitlines_from (cur ++ String x "") r
  end.

Definition splitlines (s : string) : list string := splitlines_from "" s.

(** The built-in [map] of Python 3 returns an iterator: the function is
    applied to an item only when the iterator is advanced.  [S] is the
    state the function acts on. *)
Record map_object (S A : Type) : Type := MapObject {
  map_func : S -> A -> S;
  map_items : list A
}.
Arguments MapObject {S A}.
Arguments map_func {S A}.
Arguments map_items {S A}.

Definition map {S A : Type} (f : S -> A -> S) (xs : list A) : map_object S A :=
  MapObject f xs.

(** [next(m)]: [None] stands for [StopIteration]. *)
Definition next {S A : Type} (m : map_object S A) (s : S)
  : option (S * map_object S A) :=
  match map_items m with
  | [] => None
  | x :: r => Some (map_func m s x, MapObject (map_func m) r)
  end.

(** Advancing the iterator to its end, as [list(m)] or a [for] loop does. *)
Fixpoint exhaust_items {S A : Type} (f : S -> A -> S) (xs : list A) (s : S) : S :=
  match xs with
  | [] => s
  | x :: r => exhaust_items f r (f s x)
  end.

Definition exhaust {S A : Type} (m : map_object S A) (s : S) : S :=
  exhaust_items (map_func m) (map_items m) s.

End Py.

(** ** [xml.sax.saxutils] of the Python standard library *)
Module Sax.

(** [__dict_replace(s, d)]: one [replace] per entry, in the dict's order. *)
Fixpoint dict_replace (s : string) (d : list (ascii * string)) : string :=
  match d with
  | [] => s
  | (key, value) :: r => dict_replace (Py.replace key value s) r
  end.

(** [escape(data, entities)]. *)
Definition escape_with (data : string) (entities : list (ascii * string)) : string :=
  let data := Py.replace "&"%char "&amp;" data in
  let data := Py.replace ">"%char "&gt;" data in
  let data := Py.replace "<"%char "&lt;" data in
  dict_replace data entities.

(** [escape(data)], imported as [xml_escape]. *)
Definition escape (data : string) : string := escape_with data [].

(** The entities [quoteattr] adds. *)
Definition quoteattr_entities : list (ascii * string) :=
  [(Py.LF, "&#10;"); (Py.CR, "&#13;"); (Py.TAB, "&#9;")].

(** [quoteattr(data)], imported as [attr_escape]. *)
Definition quoteattr (data : string) : string :=
  let data := escape_with data quoteattr_entities in
  if Py.contains Py.DQUOTE data then
    if Py.contains Py.SQUOTE data then
      String Py.DQUOTE (Py.replace Py.DQUOTE "&quot;" data ++ String Py.DQUOTE "")
    else
      String Py.SQUOTE (data ++ String Py.SQUOTE "")
  else
    String Py.DQUOTE (data ++ String Py.DQUOTE "").

End Sax.

(** ** class StringBuilder *)
Module StringBuilder.

Record t : Type := Build { _strings : list string }.

Definition append (self : t) (string : string) : t :=
  {| _strings := (_strings self ++ [string])%list |}.

(** [extend]: the body is the expression statement
    [map(self.append, strings)]; the iterator it builds is dropped
    without being advanced. *)
Definition extend (self : t) (strings : list string) : t :=
  let _ := Py.map append strings in
  self.

(** The constructor argument: absent, a [str], or a list/tuple. *)
Inductive init_arg : Type :=
| NoArg
| StrArg (s : string)
| SeqArg (l : list string).

Definition __init__ (obj : init_arg) : t :=
  let self := {| _strings := [] |} in
  match obj with
  | StrArg s => append self s
  | SeqArg l => extend self l
  | NoArg => self
  end.

Definition get_lines (self : t) : list string :=
  fold_left
    (fun lines output_str =>
       (lines ++ filter Py.truthy (Py.split Py.LF output_str))%list)
    (_strings self) [].

Definition get_string (self : t) : string := Py.join "" (_strings self).

Definition __str__ (self : t) : string := get_string self.

End StringBuilder.

(** ** class IndentBase and its two subclasses *)
Module IndentBase.

(** The abstract method [_write_raw]: what a subclass does with a chunk
    of output, as a function on the part of the object it owns. *)
Class RawWriter (Sink : Type) : Type := _write_raw_sink : Sink -> string -> Sink.

(** [IndentWriter]: the chunks passed to [outfile.write], in order. *)
Record outfile : Type := OutFile { written : list string }.

#[global] Instance IndentWriter_raw : RawWriter outfile :=
  fun f output => {| written := (written f ++ [output])%list |}.

(** [IndentStringBuilder]: [self.append(output)] of [StringBuilder]. *)
#[global] Instance IndentStringBuilder_raw : RawWriter StringBuilder.t :=
  fun sb output => StringBuilder.append sb output.

Section Engine.
Context {Sink : Type} `{RawWriter Sink}.

Record t : Type := Build {
  _il : Z;
  _indent_str : string;
  _enabled : bool;
  _isnewline : bool;
  _sink : Sink
}.

Definition __init__ (sink : Sink) : t :=
  {| _il := 0; _indent_str := "    "; _enabled := true;
     _isnewline := false; _sink := sink |}.

Definition _write_raw (self : t) (output : string) : t :=
  {| _il := _il self; _indent_str := _indent_str self;
     _enabled := _enabled self; _isnewline := _isnewline self;
     _sink := _write_raw_sink (_sink self) output |}.

Definition set_isnewline (self : t) (b : bool) : t :=
  {| _il := _il self; _indent_str := _indent_str self;
     _enabled := _enabled self; _isnewline := b; _sink := _sink self |}.

Definition set_il (self : t) (il : Z) : t :=
  {| _il := il; _indent_str := _indent_str self;
     _enabled := _enabled self; _isnewline := _isnewline self;
     _sink := _sink self |}.

Definition write (self : t) (output : string) : t :=
  let self :=
    if _isnewline self then
      let self := set_isnewline self false in
      _write_raw self (Py.str_mul (_indent_str self) (_il self))
    else self in
  _write_raw self output.

Definition indent (self : t) (level : Z) : t :=
  set_il self (_il self + level).

Definition unindent (self : t) (level : Z) : t :=
  let self := set_il self (_il self - level) in
  if _il self <? 0 then set_il self 0 else self.

Definition set_indent_string (self : t) (indent_str : string) : t :=
  {| _il := _il self; _indent_str := indent_str;
     _enabled := _enabled self; _isnewline := _isnewline self;
     _sink := _sink self |}.


Definition newline (self : t) : t :=
  let self := set_isnewline self true in
  _write_raw self (String Py.LF "").

Definition println (self : t) (output : string) : t :=
  let self := write self output in
  newline self.

Definition print_lines (self : t) (output : string) : t :=
  fold_left println (Py.splitlines output) self.

Definition writeln (self : t) (output : string) : t := println self output.

Definition __call__ (self : t) (output : option string) : t :=
  match output with
  | None => newline self
  | Some output => println self output
  end.

(** The default [level = 1] of [indent] and [unindent]. *)
Definition __enter__ (self : t) : t := indent self 1.

(** [__exit__] ignores the exception it is told about and returns
    [None], so an exception of the block goes on propagating. *)
Definition __exit__ {E : Type} (self : t) (exc : option E) : t := unindent self 1.

(** [with self: body].  The block either completes with a value or
    raises; in both cases it hands back the engine as it left it, and
    [__exit__] runs on it. *)
Definition with_ {E A : Type} (self : t) (body : t -> t * (A + E)) : t * (A + E) :=
  let self := __enter__ self in
  let (self, result) := body self in
  match result with
  | inl value => (__exit__ self (@None E), inl value)
  | inr exc => (__exit__ self (Some exc), inr exc)
  end.

(** One call of [indent] or [unindent], for sequences of such calls. *)
Inductive call : Type :=
| Indent (level : Z)
| Unindent (level : Z).

Definition do_call (self : t) (c : call) : t :=
  match c with
  | Indent level => indent self level
  | Unindent level => unindent self level
  end.

Definition do_calls (self : t) (cs : list call) : t := fold_left do_call cs self.

End Engine.

Arguments t Sink : clear implicits.

(** [IndentWriter(outfile)] and [IndentStringBuilder()]. *)
Definition IndentWriter : Type := t outfile.
Definition IndentStringBuilder : Type := t StringBuilder.t.

Definition IndentStringBuilder__init__ : IndentStringBuilder :=
  __init__ (StringBuilder.__init__ StringBuilder.NoArg).

Definition get_string (self : IndentStringBuilder) : string :=
  StringBuilder.get_string (_sink self).

End IndentBase.


(** ** Markup nodes: XmlText, XmlElement, XmlFunctor *)
Module Xml.

(** These HTML tags must omit their end tags (a [set] in the source;
    membership does not depend on its iteration order). *)
Definition HTML_VOID_TAGS : list string :=
  ["area"; "base"; "br"; "col"; "hr"; "img"; "input";
   "link"; "meta"; "param"; "command"; "keygen"; "source"].

(** These tags should not be indented. *)
Definition HTML_NOINDENT_TAGS : list string := ["textarea"].

(** [name in tags]. *)
Definition member (name : string) (tags : list string) : bool :=
  existsb (String.eqb name) tags.

(** *** OrderedDict with string keys *)
Definition OrderedDict : Type := list (string * option string).

(** [key in d]. *)
Definition has_key (d : OrderedDict) (key : string) : bool :=
  existsb (fun kv => String.eqb (fst kv) key) d.

(** [d[key]] for a key that may be absent ([None] here is [KeyError]). *)
Fixpoint getitem (d : OrderedDict) (key : string) : option (option string) :=
  match d with
  | [] => None
  | (k, v) :: r => if String.eqb k key then Some v else getitem r key
  end.

(** [d[key] = value]: an existing key keeps its place, a new one goes last. *)
Fixpoint setitem (d : OrderedDict) (key : string) (value : option string) : OrderedDict :=
  match d with
  | [] => [(key, value)]
  | (k, v) :: r =>
      if String.eqb k key then (k, value) :: r
      else (k, v) :: setitem r key value
  end.

(** [d.update(other)]. *)
Definition update (d other : OrderedDict) : OrderedDict :=
  fold_left (fun d kv => setitem d (fst kv) (snd kv)) other d.

(** *** Nodes *)
Record element (N : Type) : Type := Build_element {
  _name : string;
  _doctype : option string;
  _html : bool;
  _children : list N;
  _attrs : OrderedDict
}.
Arguments Build_element {N}.
Arguments _name {N}.
Arguments _doctype {N}.
Arguments _html {N}.
Arguments _children {N}.
Arguments _attrs {N}.

(** What can sit in [_children]: an [XmlText], an [XmlElement], or any
    other object, of which only [str()] is ever used. *)
Inductive Node : Type :=
| XmlText (_text : string)
| Element (e : element Node)
| Object (str : string).

Definition XmlElement : Type := element Node.

Definition set_children (self : XmlElement) (children : list Node) : XmlElement :=
  {| _name := _name self; _doctype := _doctype self; _html := _html self;
     _children := children; _attrs := _attrs self |}.

Definition set_attrs (self : XmlElement) (attrs : OrderedDict) : XmlElement :=
  {| _name := _name self; _doctype := _doctype self; _html := _html self;
     _children := _children self; _attrs := attrs |}.

Definition __init__ (name : string) (attrs : option OrderedDict) (html : bool) : XmlElement :=
  {| _name := name; _doctype := None; _html := html; _children := [];
     _attrs := match attrs with
               | None => []
               | Some attrs => update [] attrs
               end |}.

Definition doctype (self : XmlElement) (doctype : string) : XmlElement :=
  {| _name := _name self; _doctype := Some doctype; _html := _html self;
     _children := _children self; _attrs := _attrs self |}.

(** *** Exceptions *)
Inductive exn : Type :=
| ValueError (msg : string)
| TypeError.

(** A call on an element: the element after the call, and the exception
    if the call raised. *)
Definition outcome : Type := (XmlElement * option exn)%type.

(** A [for] loop whose body may raise: the first exception ends it. *)
Definition for_each {A : Type} (body : XmlElement -> A -> outcome)
  : list A -> XmlElement -> outcome :=
  fix loop (xs : list A) (self : XmlElement) : outcome :=
    match xs with
    | [] => (self, None)
    | x :: r =>
        match body self x with
        | (self, None) => loop r self
        | raised => raised
        end
    end.

(** A positional argument of [apply], by the shape the [isinstance]
    tests see. *)
Inductive arg : Type :=
| Str (s : string)
| Seq (l : list arg)
| Dict (d : OrderedDict)
| Child (n : Node).

Section VoidTagsIteration.

(** The order in which the running interpreter iterates over the set
    [HTML_VOID_TAGS]; [', '.join] follows it. *)
Variable void_tags_iteration : list string.

Definition void_tags_message : string :=
  "HTML void tags (" ++ Py.join ", " void_tags_iteration
  ++ ") cannot have child elements.".

Definition append (self : XmlElement) (child : Node) : outcome :=
  if (_html self && member (_name self) HTML_VOID_TAGS)%bool then
    (self, Some (ValueError void_tags_message))
  else
    (set_children self (_children self ++ [child])%list, None).

(** The body of [for key, value in child.items()].  Adding to [None],
    or adding [None] to a string, is a [TypeError]. *)
Definition merge_item (self : XmlElement) (item : string * option string) : outcome :=
  let (key, value) := item in
  if (String.eqb key "class" && _html self && has_key (_attrs self) "class")%bool then
    match getitem (_attrs self) "class", value with
    | Some (Some old), Some value =>
        (set_attrs self (setitem (_attrs self) "class" (Some (old ++ (" " ++ value)))), None)
    | _, _ => (self, Some TypeError)
    end
  else
    (set_attrs self (setitem (_attrs self) key value), None).

(** The body of [for child in args]; for a list or tuple it is
    [self.apply( *child )], a call without named arguments. *)
Fixpoint apply_arg (self : XmlElement) (child : arg) : outcome :=
  match child with
  | Str s => append self (XmlText s)
  | Seq l =>
      let self := set_attrs self (update (_attrs self) []) in
      for_each apply_arg l self
  | Dict d => for_each merge_item d self
  | Child n => append self n
  end.

Definition apply (self : XmlElement) (args : list arg) (kwargs : OrderedDict) : outcome :=
  let self := set_attrs self (update (_attrs self) kwargs) in
  for_each apply_arg args self.

(** [XmlFunctor(element_name, html)(args, kwargs)]. *)
Definition XmlFunctor__call__ (element_name : string) (html : bool)
    (args : list arg) (kwargs : OrderedDict) : outcome :=
  let node := __init__ element_name None html in
  apply node args kwargs.

End VoidTagsIteration.

(** *** Rendering *)
Definition _get_attrs_str (self : XmlElement) : string :=
  let attr_decls :=
    fold_left
      (fun attr_decls item =>
         match snd item with
         | Some value =>
             (attr_decls
                ++ [(Sax.escape (fst item) ++ "=" ++ Sax.quoteattr value)%string])%list
         | None => (attr_decls ++ [Sax.escape (fst item)])%list
         end)
      (_attrs self) [] in
  Py.join " " attr_decls.

Definition is_empty {A : Type} (l : list A) : bool :=
  match l with [] => true | _ => false end.

(** [XmlElement.__str__], given what [str(child)] is for a child. *)
Definition element_str (str : Node -> string) (self : XmlElement) : string :=
  let name := Sax.escape (_name self) in
  let sb := IndentBase.IndentStringBuilder__init__ in
  let sb :=
    match _doctype self with
    | Some doctype => IndentBase.__call__ sb (Some ("<!doctype " ++ doctype ++ ">"))
    | None => sb
    end in
  let sb :=
    if is_empty (_children self) then
      if (_html self && negb (member (_name self) HTML_VOID_TAGS))%bool then
        if is_empty (_attrs self) then
          IndentBase.__call__ sb (Some ("<" ++ name ++ "></" ++ name ++ ">"))
        else
          IndentBase.__call__ sb
            (Some ("<" ++ name ++ " " ++ _get_attrs_str self ++ "></" ++ name ++ ">"))
      else if is_empty (_attrs self) then
        IndentBase.__call__ sb (Some ("<" ++ name ++ "/>"))
      else
        IndentBase.__call__ sb (Some ("<" ++ name ++ " " ++ _get_attrs_str self ++ "/>"))
    else
      if (_html self && member (_name self) HTML_NOINDENT_TAGS)%bool then
        if is_empty (_attrs self) then
          IndentBase.__call__ sb
            (Some ("<" ++ name ++ ">" ++ Py.join "" (List.map str (_children self))
                   ++ "</" ++ name ++ ">"))
        else
          IndentBase.__call__ sb
            (Some ("<" ++ name ++ " " ++ _get_attrs_str self ++ ">"
                   ++ Py.join "" (List.map str (_children self))
                   ++ "</" ++ name ++ ">"))
      else
        let sb :=
          if is_empty (_attrs self) then
            IndentBase.__call__ sb (Some ("<" ++ name ++ ">"))
          else
            IndentBase.__call__ sb (Some ("<" ++ name ++ " " ++ _get_attrs_str self ++ ">")) in
        let sb :=
          fst (IndentBase.with_ (E := exn) sb
                 (fun sb =>
                    (fold_left
                       (fun sb child => IndentBase.print_lines sb (str child))
                       (_children self) sb,
                     inl tt))) in
        IndentBase.__call__ sb (Some ("</" ++ name ++ ">")) in
  IndentBase.get_string sb.

(** [str(node)]. *)
Fixpoint str (node : Node) : string :=
  match node with
  | XmlText text => Sax.escape text
  | Element e => element_str str e
  | Object s => s
  end.

Definition __str__ (self : XmlElement) : string := element_str str self.

End Xml.


(** ** Vocabulary of the properties *)
Module Spec.

Import IndentBase.

(** The level a call was made with. *)
Definition level (c : call) : Z :=
  match c with
  | Indent k => k
  | Unindent k => k
  end.

(** The sum of the levels of the [indent] calls of a sequence. *)
Fixpoint sum_indent (cs : list call) : Z :=
  match cs with
  | [] => 0
  | Indent k :: r => k + sum_indent r
  | Unindent _ :: r => sum_indent r
  end.

(** The sum of the levels of the [unindent] calls of a sequence. *)
Fixpoint sum_unindent (cs : list call) : Z :=
  match cs with
  | [] => 0
  | Indent _ :: r => sum_unindent r
  | Unindent k :: r => k + sum_unindent r
  end.

(** [initial + sum_indent - sum_unindent] after a sequence of calls. *)
Definition running (initial : Z) (cs : list call) : Z :=
  initial + sum_indent cs - sum_unindent cs.

(** One step of following the running value together with the least
    value it has taken so far. *)
Definition track (st : Z * Z) (c : call) : Z * Z :=
  let t := match c with
           | Indent k => fst st + k
           | Unindent k => fst st - k
           end in
  (t, Z.min (snd st) t).

(** The least value [running] takes over the prefixes of a sequence,
    the empty prefix included. *)
Definition lowest (initial : Z) (cs : list call) : Z :=
  snd (fold_left track cs (initial, initial)).

(** An error would identify the element it was raised on by its tag if
    equal errors could only come from elements with equal tags. *)
Definition error_identifies_tag (order : list string) : Prop :=
  forall (e1 e2 : Xml.XmlElement) (c1 c2 : Xml.Node) (x : Xml.exn),
    snd (Xml.append order e1 c1) = Some x ->
    snd (Xml.append order e2 c2) = Some x ->
    Xml._name e1 = Xml._name e2.

(** The escaped value that goes between the quote characters [q]: [&],
    [<], [>], newline, carriage return and tab are replaced by entities,
    and between double quotes the double quote is too. *)
Definition escaped_value (q : ascii) (value : string) : string :=
  let data := Sax.escape_with value Sax.quoteattr_entities in
  if Ascii.eqb q Py.DQUOTE then Py.replace Py.DQUOTE "&quot;" data else data.

(** The rendered form of one attribute: the escaped key alone for a
    null value; otherwise the escaped key, [=], and the escaped value
    between two equal quote characters, none of which occurs in between.
    The quote is the apostrophe exactly when the value has a double quote
    and no apostrophe. *)
Definition attr_decl_form (item : string * option string) (decl : string) : Prop :=
  match snd item with
  | None => decl = Sax.escape (fst item)
  | Some value =>
      exists q : ascii,
        decl = Sax.escape (fst item) ++ "="
               ++ String q (escaped_value q value ++ String q "")
        /\ (q = Py.DQUOTE \/ q = Py.SQUOTE)
        /\ Py.contains q (escaped_value q value) = false
        /\ (q = Py.SQUOTE <->
            Py.contains Py.DQUOTE value = true /\ Py.contains Py.SQUOTE value = false)
  end.

(** One entry of the list [attr_decls] built by [_get_attrs_str]. *)
Definition attr_decl (item : string * option string) : string :=
  match snd item with
  | Some value => Sax.escape (fst item) ++ "=" ++ Sax.quoteattr value
  | None => Sax.escape (fst item)
  end.

End Spec.

(** ** XmlFactory, HtmlFactory and XmlFunctor *)
Module Factory.

(** [XmlFactory]: the private field [__html]. *)
Record XmlFactory : Type := Build_XmlFactory { __html : bool }.

(** [XmlFactory(html)]; the default is [html = False]. *)
Definition XmlFactory__init__ (html : bool) : XmlFactory := {| __html := html |}.

(** [HtmlFactory()]: [super().__init__(html = True)]. *)
Definition HtmlFactory__init__ : XmlFactory := XmlFactory__init__ true.

Record XmlFunctor : Type := Build_XmlFunctor {
  _element_name : string;
  _html : bool
}.

Definition XmlFunctor__init__ (element_name : string) (html : bool) : XmlFunctor :=
  {| _element_name := element_name; _html := html |}.

(** [factory.element_name], for a name that is not a field of the factory. *)
Definition __getattr__ (self : XmlFactory) (element_name : string) : XmlFunctor :=
  XmlFunctor__init__ element_name (__html self).

(** [functor( *args, **kwargs )]: the node, as [apply] left it, and the
    exception if [apply] raised (the node is then not returned). *)
Definition __call__ (order : list string) (self : XmlFunctor)
    (args : list Xml.arg) (kwargs : Xml.OrderedDict) : Xml.outcome :=
  let node := Xml.__init__ (_element_name self) None (_html self) in
  Xml.apply order node args kwargs.

(** The two factories the module defines at import. *)
Definition xml : XmlFactory := HtmlFactory__init__.
Definition html : XmlFactory := HtmlFactory__init__.

End Factory.

(** ** Vocabulary of the further properties *)
Module Shape.

(** The keys of a dict, in iteration order. *)
Definition keys (d : Xml.OrderedDict) : list string := List.map fst d.

(** The positional arguments of [apply] with every list or tuple
    replaced by its items, at any depth. *)
Fixpoint flatten (a : Xml.arg) : list Xml.arg :=
  match a with
  | Xml.Seq l => flat_map flatten l
  | other => [other]
  end.

(** A string with every character replaced by a string. *)
Fixpoint substitute (f : ascii -> string) (s : string) : string :=
  match s with
  | EmptyString => EmptyString
  | String c r => f c ++ substitute f r
  end.

(** What [escape] writes for one character. *)
Definition escape_char (c : ascii) : string :=
  if Ascii.eqb c "&"%char then "&amp;"
  else if Ascii.eqb c ">"%char then "&gt;"
  else if Ascii.eqb c "<"%char then "&lt;"
  else String c "".

(** Lines as an engine at line start prints them: each one after the
    prefix and before a newline. *)
Definition indented_lines (unit : string) (depth : Z) (lines : list string) : string :=
  Py.join "" (List.map (fun line => Py.str_mul unit depth ++ line ++ String Py.LF "") lines).

(** The string builder of an engine with [chunks] put before what it holds. *)
Definition after_chunks (chunks : list string) (sb : IndentBase.IndentStringBuilder)
  : IndentBase.IndentStringBuilder :=
  {| IndentBase._il := IndentBase._il sb;
     IndentBase._indent_str := IndentBase._indent_str sb;
     IndentBase._enabled := IndentBase._enabled sb;
     IndentBase._isnewline := IndentBase._isnewline sb;
     IndentBase._sink :=
       {| StringBuilder._strings :=
            (chunks ++ StringBuilder._strings (IndentBase._sink sb))%list |} |}.

(** The opening tag of an element with children. *)
Definition open_tag (e : Xml.XmlElement) : string :=
  if Xml.is_empty (Xml._attrs e)
  then "<" ++ Sax.escape (Xml._name e) ++ ">"
  else "<" ++ Sax.escape (Xml._name e) ++ " " ++ Xml._get_attrs_str e ++ ">".


(** The closing tag. *)
Definition close_tag (e : Xml.XmlElement) : string :=
  "</" ++ Sax.escape (Xml._name e) ++ ">".

(** The lines of the rendered children, in order. *)
Definition child_lines (e : Xml.XmlElement) : list string :=
  flat_map (fun child => Py.splitlines (Xml.str child)) (Xml._children e).

End Shape.

(** ** Strings *)
Section StringFacts.

Lemma str_app_nil_r (s : string) : s ++ "" = s.
Proof. induction s as [|c s IH]; simpl; [reflexivity | now rewrite IH]. Qed.

Lemma str_app_assoc (a b c : string) : (a ++ b) ++ c = a ++ (b ++ c).
Proof. induction a as [|x a IH]; simpl; [reflexivity | now rewrite IH]. Qed.

Lemma join_empty_cons (x : string) (xs : list string) :
  Py.join "" (x :: xs) = x ++ Py.join "" xs.
Proof.
  unfold Py.join. destruct xs as [|y ys]; simpl.
  - now rewrite str_app_nil_r.
  - reflexivity.
Qed.

Lemma join_empty_app (xs ys : list string) :
  Py.join "" (xs ++ ys) = Py.join "" xs ++ Py.join "" ys.
Proof.
  induction xs as [|x xs IH].
  - reflexivity.
  - change ((x :: xs) ++ ys)%list with (x :: (xs ++ ys))%list.
    now rewrite !join_empty_cons, IH, str_app_assoc.
Qed.

Lemma contains_app (c : ascii) (a b : string) :
  Py.contains c (a ++ b) = (Py.contains c a || Py.contains c b)%bool.
Proof.
  induction a as [|x a IH]; simpl; [reflexivity |].
  now rewrite IH, orb_assoc.
Qed.

(** Replacing a character that does not occur changes nothing. *)
Lemma replace_absent (c : ascii) (new s : string) :
  Py.contains c s = false -> Py.replace c new s = s.
Proof.
  induction s as [|x s IH]; simpl; [reflexivity |].
  intros H. apply orb_false_iff in H as [Hx Hs].
  now rewrite Hx, IH.
Qed.

(** After [replace], the replaced character occurs only if it occurs in
    its replacement. *)
Lemma replace_removes (c : ascii) (new s : string) :
  Py.contains c new = false -> Py.contains c (Py.replace c new s) = false.
Proof.
  intros Hnew. induction s as [|x s IH]; simpl; [reflexivity |].
  destruct (Ascii.eqb x c) eqn:E.
  - now rewrite contains_app, Hnew, IH.
  - simpl. now rewrite E, IH.
Qed.

(** [replace] of another character by a string without [q] keeps the
    occurrences of [q]. *)
Lemma replace_keeps (q c : ascii) (new s : string) :
  Ascii.eqb c q = false -> Py.contains q new = false ->
  Py.contains q (Py.replace c new s) = Py.contains q s.
Proof.
  intros Hcq Hnew. induction s as [|x s IH]; simpl; [reflexivity |].
  destruct (Ascii.eqb x c) eqn:E.
  - apply Ascii.eqb_eq in E. subst x.
    now rewrite contains_app, Hnew, IH, Hcq.
  - simpl. now rewrite IH.
Qed.

End StringFacts.

(** ** StringBuilder *)
Section StringBuilderFacts.

Import StringBuilder.

Lemma get_string_append (sb : t) (fragment : string) :
  get_string (append sb fragment) = get_string sb ++ fragment.
Proof.
  unfold get_string, append. cbn [_strings].
  rewrite join_empty_app, join_empty_cons.
  f_equal. apply str_app_nil_r.
Qed.

(** Advancing the iterator [map(self.append, strings)] to its end would
    append every fragment in order. *)
Lemma exhausted_map_appends_all (strings : list string) (sb : t) :
  get_string (Py.exhaust (Py.map append strings) sb)
  = get_string sb ++ Py.join "" strings.
Proof.
  unfold Py.exhaust, Py.map. cbn [Py.map_func Py.map_items].
  revert sb. induction strings as [|x xs IH]; intros sb; cbn [Py.exhaust_items].
  - change (Py.join "" []) with "". now rewrite str_app_nil_r.
  - rewrite IH, get_string_append, join_empty_cons. apply str_app_assoc.
Qed.

(** [extend] never advances the iterator: the builder is as before. *)
Lemma extend_unchanged (sb : t) (strings : list string) :
  extend sb strings = sb.
Proof. reflexivity. Qed.

(** C7 (as the code behaves): after [append("a")], [extend(["b", "c"])]
    adds no fragment, so [get_string] still returns ["a"] and not the
    concatenation ["abc"] of the previous result with the fragments. *)
Theorem extend_adds_no_fragment :
  let sb := append (__init__ NoArg) "a" in
  get_string sb = "a"
  /\ get_string (extend sb ["b"; "c"]) = "a"
  /\ get_string sb ++ Py.join "" ["b"; "c"] = "abc"
  /\ get_string (extend sb ["b"; "c"]) <> get_string sb ++ Py.join "" ["b"; "c"].
Proof.
  repeat split; try reflexivity.
  vm_compute. discriminate.
Qed.

End StringBuilderFacts.

(** ** The indent engine *)
Section EngineFacts.

Import IndentBase Spec.
Context {Sink : Type}.

Lemma il_indent (s : t Sink) (k : Z) : _il (indent s k) = _il s + k.
Proof. reflexivity. Qed.

Lemma il_unindent (s : t Sink) (k : Z) : _il (unindent s k) = Z.max 0 (_il s - k).
Proof.
  unfold unindent. simpl.
  destruct (_il s - k <? 0) eqn:E; simpl.
  - apply Z.ltb_lt in E. lia.
  - apply Z.ltb_ge in E. lia.
Qed.

Lemma do_calls_snoc (s : t Sink) (cs : list call) (c : call) :
  do_calls s (cs ++ [c]) = do_call (do_calls s cs) c.
Proof. unfold do_calls. now rewrite fold_left_app. Qed.

Lemma sum_indent_snoc (cs : list call) (c : call) :
  sum_indent (cs ++ [c])
  = sum_indent cs + match c with Indent k => k | Unindent _ => 0 end.
Proof.
  induction cs as [|a cs IH]; simpl.
  - destruct c; lia.
  - destruct a; rewrite IH; lia.
Qed.

Lemma sum_unindent_snoc (cs : list call) (c : call) :
  sum_unindent (cs ++ [c])
  = sum_unindent cs + match c with Indent _ => 0 | Unindent k => k end.
Proof.
  induction cs as [|a cs IH]; simpl.
  - destruct c; lia.
  - destruct a; rewrite IH; lia.
Qed.

Lemma track_total (initial : Z) (cs : list call) :
  fst (fold_left track cs (initial, initial)) = running initial cs.
Proof.
  unfold running.
  induction cs as [|c cs IH] using rev_ind.
  - simpl. lia.
  - rewrite fold_left_app, sum_indent_snoc, sum_unindent_snoc. simpl.
    rewrite IH. destruct c; lia.
Qed.

Lemma lowest_snoc (initial : Z) (cs : list call) (c : call) :
  lowest initial (cs ++ [c])
  = Z.min (lowest initial cs) (running initial (cs ++ [c])).
Proof.
  unfold lowest. rewrite fold_left_app. simpl.
  f_equal. rewrite track_total.
  unfold running. rewrite sum_indent_snoc, sum_unindent_snoc.
  destruct c; lia.
Qed.

Lemma lowest_le_initial (initial : Z) (cs : list call) :
  lowest initial cs <= initial.
Proof.
  induction cs as [|c cs IH] using rev_ind.
  - unfold lowest. simpl. lia.
  - rewrite lowest_snoc. lia.
Qed.

(** [lowest] is the least running value over the prefixes. *)
Lemma lowest_is_least (initial : Z) (cs : list call) :
  (forall n : nat, lowest initial cs <= running initial (firstn n cs))
  /\ (exists n : nat, lowest initial cs = running initial (firstn n cs)).
Proof.
  induction cs as [|c cs [IHle [m IHm]]] using rev_ind.
  - split.
    + intros n. rewrite firstn_nil. unfold lowest, running. simpl. lia.
    + exists 0%nat. unfold lowest, running. simpl. lia.
  - rewrite lowest_snoc. split.
    + intros n. rewrite firstn_app.
      destruct (Nat.le_gt_cases n (List.length cs)) as [Hn|Hn].
      * replace (n - List.length cs)%nat with 0%nat by lia.
        cbn [firstn]. rewrite app_nil_r. specialize (IHle n). lia.
      * rewrite firstn_all2 by lia.
        destruct (n - List.length cs)%nat as [|k] eqn:Ek; [lia |].
        cbn [firstn]. rewrite firstn_nil. lia.
    + destruct (Z.le_gt_cases (lowest initial cs) (running initial (cs ++ [c])))
        as [Hle|Hgt].
      * exists (Nat.min m (List.length cs)).
        rewrite firstn_app.
        replace (Nat.min m (List.length cs) - List.length cs)%nat with 0%nat by lia.
        cbn [firstn]. rewrite app_nil_r.
        assert (Hfirst : firstn (Nat.min m (List.length cs)) cs = firstn m cs).
        { destruct (Nat.le_gt_cases m (List.length cs)) as [Hm|Hm].
          - now rewrite Nat.min_l by lia.
          - rewrite Nat.min_r by lia. now rewrite firstn_all, firstn_all2 by lia. }
        rewrite Hfirst. lia.
      * exists (S (List.length cs)).
        rewrite firstn_all2 by (rewrite length_app; simpl; lia). lia.
Qed.

(** The depth after any sequence of calls with non-negative levels. *)
Lemma depth_after_calls (s : t Sink) (cs : list call) :
  0 <= _il s ->
  Forall (fun c => 0 <= level c) cs ->
  0 <= _il (do_calls s cs)
  /\ _il (do_calls s cs) = running (_il s) cs - Z.min 0 (lowest (_il s) cs).
Proof.
  intros H0.
  induction cs as [|c cs IH] using rev_ind; intros Hall.
  - unfold do_calls, running, lowest. simpl. lia.
  - apply Forall_app in Hall as [Hcs Hc].
    specialize (IH Hcs) as [IHpos IHeq].
    inversion Hc as [|? ? Hlevel _]; subst.
    rewrite do_calls_snoc, lowest_snoc.
    unfold running in *.
    rewrite sum_indent_snoc, sum_unindent_snoc.
    pose proof (lowest_le_initial (_il s) cs) as Hlow.
    destruct c as [k|k]; cbn [level] in Hlevel; cbn [do_call].
    + rewrite il_indent. lia.
    + rewrite il_unindent. lia.
Qed.

(** C2 (amended): from a depth [>= 0] and with levels [>= 0], the depth
    is never below 0 at any point of a call sequence; at every point it
    is at least [max(0, initial + sum_indent - sum_unindent)], it equals
    that value when the running value [initial + sum_indent -
    sum_unindent] has not been below 0 at any point so far (no unindent
    was clamped), and in general it equals the running value minus
    [min(0, least running value so far)]. *)
Theorem depth_at_every_point (s : t Sink) (cs : list call) (n : nat) :
  0 <= _il s ->
  Forall (fun c => 0 <= level c) cs ->
  let made := firstn n cs in
  let depth := _il (do_calls s made) in
  let total := _il s + sum_indent made - sum_unindent made in
  0 <= depth
  /\ Z.max 0 total <= depth
  /\ depth = total - Z.min 0 (lowest (_il s) made)
  /\ (0 <= lowest (_il s) made -> depth = Z.max 0 total).
Proof.
  intros H0 Hall made depth total.
  assert (Hmade : Forall (fun c => 0 <= level c) made).
  { rewrite <- (firstn_skipn n cs) in Hall. now apply Forall_app in Hall. }
  destruct (depth_after_calls s made H0 Hmade) as [Hpos Heq].
  fold depth in Hpos, Heq. unfold running in Heq. fold total in Heq.
  repeat split; lia.
Qed.

(** C10: [indent(L)] sets the depth to exactly [d + L] for every integer
    [L], so a negative level can leave the depth below zero, whereas the
    depth after [unindent] is never below zero, whatever the level. *)
Theorem indent_is_not_clamped (sink : Sink) :
  (forall (s : t Sink) (L : Z), _il (indent s L) = _il s + L)
  /\ (exists (s : t Sink) (L : Z), 0 <= _il s /\ L < 0 /\ _il (indent s L) < 0)
  /\ (forall (s : t Sink) (L : Z), 0 <= _il (unindent s L)).
Proof.
  split; [| split].
  - intros s L. apply il_indent.
  - exists (__init__ sink), (-1). simpl. lia.
  - intros s L. rewrite il_unindent. lia.
Qed.

(** C8: entering a scope calls [indent(1)], making the depth [d + 1];
    leaving it calls [unindent(1)] on the engine as the body left it,
    whether the body completed or raised, and the body's result or
    exception is passed on; when the body left the depth as it found it,
    the depth after the scope is [d] again, and it is [>= 0]. *)
Theorem scope_restores_depth {E A : Type} (s : t Sink)
    (body : t Sink -> t Sink * (A + E)) :
  0 <= _il s ->
  _il (fst (body (__enter__ s))) = _il (__enter__ s) ->
  __enter__ s = indent s 1
  /\ _il (__enter__ s) = _il s + 1
  /\ with_ s body = (unindent (fst (body (indent s 1))) 1, snd (body (indent s 1)))
  /\ _il (fst (with_ s body)) = _il s
  /\ 0 <= _il (fst (with_ s body)).
Proof.
  intros H0 Hbody.
  assert (Hwith : with_ s body
                  = (unindent (fst (body (indent s 1))) 1, snd (body (indent s 1)))).
  { unfold with_, __enter__, __exit__.
    destruct (body (indent s 1)) as [s' [v|x]]; reflexivity. }
  repeat split; try assumption.
  - rewrite Hwith. simpl. rewrite il_unindent.
    unfold __enter__ in Hbody. rewrite Hbody, il_indent. lia.
  - rewrite Hwith. simpl. rewrite il_unindent. lia.
Qed.

End EngineFacts.

Section EngineExamples.

Import IndentBase Spec.

(** C2 (as stated) fails: from depth 0, [unindent(1)] is clamped at 0
    and [indent(1)] then gives depth 1, while
    [max(0, initial + sum_indent - sum_unindent)] is [max(0, 0 + 1 - 1) = 0]. *)
Lemma clamped_depth_exceeds_formula :
  let s : IndentWriter := __init__ (OutFile []) in
  let cs := [Unindent 1; Indent 1] in
  0 <= _il s
  /\ Forall (fun c => 0 <= level c) cs
  /\ _il (do_calls s cs) = 1
  /\ Z.max 0 (_il s + sum_indent cs - sum_unindent cs) = 0
  /\ _il (do_calls s cs) <> Z.max 0 (_il s + sum_indent cs - sum_unindent cs).
Proof.
  cbv zeta. repeat split.
  - simpl. lia.
  - repeat constructor; simpl; lia.
  - vm_compute. discriminate.
Qed.

Lemma depth_at_every_point_witness :
  let s : IndentWriter := __init__ (OutFile []) in
  let cs := [Indent 2; Unindent 3; Indent 1] in
  (0 <= _il s /\ Forall (fun c => 0 <= level c) cs)
  /\ 0 <= _il (do_calls s (firstn 3 cs))
  /\ _il (do_calls s (firstn 3 cs)) = 1.
Proof.
  cbv zeta.
  assert (H0 : 0 <= _il (__init__ (OutFile []))) by (simpl; lia).
  assert (Hall : Forall (fun c => 0 <= level c) [Indent 2; Unindent 3; Indent 1])
    by (repeat constructor; simpl; lia).
  split; [split; assumption |].
  split.
  - exact (proj1 (depth_at_every_point (__init__ (OutFile [])) _ 3 H0 Hall)).
  - reflexivity.
Defined.

Lemma scope_restores_depth_witness :
  let s : IndentWriter := indent (__init__ (OutFile [])) 2 in
  let body := fun w : IndentWriter => (println w "x", @inr unit string "boom") in
  0 <= _il s
  /\ _il (fst (with_ s body)) = _il s
  /\ snd (with_ s body) = inr "boom".
Proof.
  cbv zeta. split; [simpl; lia |].
  split.
  - refine (proj1 (proj2 (proj2 (proj2
      (scope_restores_depth (indent (__init__ (OutFile [])) 2)
         (fun w : IndentWriter => (println w "x", @inr unit string "boom")) _ _))))).
    + simpl. lia.
    + reflexivity.
  - reflexivity.
Defined.


End EngineExamples.

Section WriteFacts.

Import IndentBase.
Context {Sink : Type} `{RawWriter Sink}.


End WriteFacts.

(** ** Elements: adding children and attributes *)
Section ElementFacts.

Import Xml Spec.

Lemma member_In (name : string) (tags : list string) :
  member name tags = true <-> In name tags.
Proof.
  unfold member. rewrite existsb_exists. split.
  - intros [t [Hin Heq]]. apply String.eqb_eq in Heq. now subst.
  - intros Hin. exists name. split; [assumption | apply String.eqb_refl].
Qed.

Lemma getitem_setitem (d : OrderedDict) (key : string) (value : option string) :
  getitem (setitem d key value) key = Some value.
Proof.
  induction d as [|[k v] d IH]; simpl.
  - now rewrite String.eqb_refl.
  - destruct (String.eqb k key) eqn:E; simpl; now rewrite E.
Qed.

Lemma setitem_length_present (d : OrderedDict) (key : string) (value : option string) :
  has_key d key = true -> List.length (setitem d key value) = List.length d.
Proof.
  induction d as [|[k v] d IH]; simpl; [discriminate |].
  destruct (String.eqb k key) eqn:E; simpl; [reflexivity |].
  intros Hd. now rewrite IH.
Qed.

Lemma has_key_getitem (d : OrderedDict) (key : string) (v : option string) :
  getitem d key = Some v -> has_key d key = true.
Proof.
  induction d as [|[k w] d IH]; simpl; [discriminate |].
  destruct (String.eqb k key); simpl; [reflexivity | exact IH].
Qed.

(** A list or tuple argument is handled by a nested call of [apply]
    without named arguments. *)
Lemma apply_arg_Seq (order : list string) (self : XmlElement) (l : list arg) :
  apply_arg order self (Seq l) = apply order self l [].
Proof. reflexivity. Qed.

Lemma append_void (order : list string) (e : XmlElement) (c : Node) :
  _html e = true -> In (_name e) HTML_VOID_TAGS ->
  append order e c = (e, Some (ValueError (void_tags_message order))).
Proof.
  intros Hhtml Hvoid. apply member_In in Hvoid.
  unfold append. now rewrite Hhtml, Hvoid.
Qed.

Lemma apply_no_kwargs (order : list string) (e : XmlElement) (args : list arg) :
  apply order e args [] = for_each (apply_arg order) args e.
Proof. destruct e. reflexivity. Qed.

(** C1: on an element in HTML mode whose tag is in the void-tag set,
    [append(child)], [apply(childNode)] and [apply(text)] raise the
    error of the void-tag guard, and the element after the failed call
    is the element before it: same children, same attributes. *)
Theorem void_element_rejects_child (order : list string) (e : XmlElement)
    (child : Node) (text : string) :
  _html e = true ->
  In (_name e) ["area"; "base"; "br"; "col"; "hr"; "img"; "input";
                "link"; "meta"; "param"; "command"; "keygen"; "source"] ->
  append order e child = (e, Some (ValueError (void_tags_message order)))
  /\ apply order e [Child child] [] = (e, Some (ValueError (void_tags_message order)))
  /\ apply order e [Str text] [] = (e, Some (ValueError (void_tags_message order))).
Proof.
  intros Hhtml Hvoid.
  change (In (_name e) HTML_VOID_TAGS) in Hvoid.
  repeat split.
  - now apply append_void.
  - rewrite apply_no_kwargs. cbn [for_each apply_arg].
    now rewrite append_void.
  - rewrite apply_no_kwargs. cbn [for_each apply_arg].
    now rewrite append_void.
Qed.

(** With named arguments in the same call the attributes are merged
    before the child is looked at, and stay merged when the guard fires. *)
Lemma void_guard_after_named_arguments :
  apply HTML_VOID_TAGS (__init__ "br" None true) [Str "x"] [("id", Some "b")]
  = (set_attrs (__init__ "br" None true) [("id", Some "b")],
     Some (ValueError (void_tags_message HTML_VOID_TAGS))).
Proof. reflexivity. Qed.

(** A mapping passed as a positional argument: [class] is joined to the
    existing [class] in HTML mode. *)
Lemma apply_dict_class_merges (order : list string) (e : XmlElement) (old new : string) :
  _html e = true ->
  getitem (_attrs e) "class" = Some (Some old) ->
  apply order e [Dict [("class", Some new)]] []
  = (set_attrs e (setitem (_attrs e) "class" (Some (old ++ " " ++ new))), None).
Proof.
  intros Hhtml Hget.
  rewrite apply_no_kwargs. cbn [for_each apply_arg merge_item].
  rewrite Hhtml, (has_key_getitem _ _ _ Hget), Hget. reflexivity.
Qed.

(** After the merge there is still one [class] attribute, at its place,
    holding the old value, a space and the new value. *)
Lemma class_merge_keeps_one_attribute (order : list string) (e : XmlElement)
    (old new : string) :
  _html e = true ->
  getitem (_attrs e) "class" = Some (Some old) ->
  let e' := fst (apply order e [Dict [("class", Some new)]] []) in
  getitem (_attrs e') "class" = Some (Some (old ++ " " ++ new))
  /\ List.length (_attrs e') = List.length (_attrs e).
Proof.
  intros Hhtml Hget e'. subst e'.
  rewrite (apply_dict_class_merges order e old new Hhtml Hget). cbn [fst set_attrs _attrs].
  split.
  - apply getitem_setitem.
  - apply setitem_length_present. exact (has_key_getitem _ _ _ Hget).
Qed.

(** Named arguments go through [update]: [class] is overwritten. *)
Lemma apply_kwargs_class_overwrites (order : list string) (e : XmlElement) (new : option string) :
  apply order e [] [("class", new)]
  = (set_attrs e (setitem (_attrs e) "class" new), None).
Proof. destruct e. reflexivity. Qed.

(** C3 (as the code behaves): on an HTML-mode element whose [class] is
    ["a"], the positional mapping [{'class': 'b'}] gives the single
    attribute [class = "a b"], but the named argument [class = 'b']
    gives [class = "b"]: the existing value is overwritten. *)
Theorem named_class_overwrites (order : list string) :
  let el := fst (apply order (__init__ "div" None true) [Dict [("class", Some "a")]] []) in
  _html el = true
  /\ _attrs el = [("class", Some "a")]
  /\ apply order el [Dict [("class", Some "b")]] []
     = (set_attrs el [("class", Some "a b")], None)
  /\ apply order el [] [("class", Some "b")]
     = (set_attrs el [("class", Some "b")], None).
Proof. repeat split. Qed.

(** C9 (as stated) fails: the error raised on an [img] element and the
    one raised on a [br] element are equal, so the error cannot tell
    which element the call was made on. *)
Lemma void_error_same_for_img_and_br :
  ~ (exists order : list string, error_identifies_tag order).
Proof.
  intros [order H].
  specialize (H (__init__ "img" None true) (__init__ "br" None true)
                (XmlText "x") (XmlText "x")
                (ValueError (void_tags_message order)) eq_refl eq_refl).
  discriminate H.
Qed.

(** C9 (amended): whenever adding a child to an HTML void element fails,
    the error raised by [append] or [apply] is a [ValueError] whose
    message lists the whole void-tag set (every void tag, in the order
    the set is iterated in); it is the same error for every void element
    and every child, whatever the tag of the element the call was made
    on. *)
Theorem void_error_lists_all_tags (order : list string) (e1 e2 : XmlElement)
    (c1 c2 : Node) :
  _html e1 = true -> In (_name e1) HTML_VOID_TAGS ->
  _html e2 = true -> In (_name e2) HTML_VOID_TAGS ->
  snd (append order e1 c1)
  = Some (ValueError ("HTML void tags (" ++ Py.join ", " order
                      ++ ") cannot have child elements."))
  /\ snd (apply order e1 [Child c1] []) = snd (append order e1 c1)
  /\ snd (append order e2 c2) = snd (append order e1 c1)
  /\ (Permutation HTML_VOID_TAGS order ->
      forall tag : string, In tag HTML_VOID_TAGS -> In tag order).
Proof.
  intros Hh1 Hv1 Hh2 Hv2.
  rewrite apply_no_kwargs. cbn [for_each apply_arg].
  rewrite !append_void by assumption.
  repeat split.
  intros Hperm tag Htag. exact (Permutation_in tag Hperm Htag).
Qed.

Lemma void_element_rejects_child_witness :
  let img := __init__ "img" (Some [("src", Some "a.png")]) true in
  _html img = true
  /\ apply HTML_VOID_TAGS img [Child (Element (__init__ "b" None true))] []
     = (img, Some (ValueError (void_tags_message HTML_VOID_TAGS))).
Proof.
  cbv zeta. split; [reflexivity |].
  refine (proj1 (proj2
    (void_element_rejects_child HTML_VOID_TAGS
       (__init__ "img" (Some [("src", Some "a.png")]) true)
       (Element (__init__ "b" None true)) "text" _ _))).
  - reflexivity.
  - simpl. tauto.
Defined.

Lemma void_error_lists_all_tags_witness :
  let img := __init__ "img" None true in
  let br := __init__ "br" None true in
  (_html img = true /\ _html br = true)
  /\ snd (append HTML_VOID_TAGS br (XmlText "x"))
     = snd (append HTML_VOID_TAGS img (Object "1")).
Proof.
  cbv zeta. split; [split; reflexivity |].
  refine (proj1 (proj2 (proj2
    (void_error_lists_all_tags HTML_VOID_TAGS
       (__init__ "img" None true) (__init__ "br" None true)
       (Object "1") (XmlText "x") _ _ _ _)))).
  - reflexivity.
  - simpl. tauto.
  - reflexivity.
  - simpl. tauto.
Defined.

End ElementFacts.

(** ** Rendering *)
Section RenderFacts.

Import Xml Spec.

(** [escape] leaves a string without [&], [<] and [>] as it is. *)
Lemma escape_plain (s : string) :
  Py.contains "&"%char s = false ->
  Py.contains ">"%char s = false ->
  Py.contains "<"%char s = false ->
  Sax.escape s = s.
Proof.
  intros Hamp Hgt Hlt. unfold Sax.escape, Sax.escape_with. cbn [Sax.dict_replace].
  rewrite (replace_absent "&"%char _ s Hamp).
  rewrite (replace_absent ">"%char _ s Hgt).
  now rewrite (replace_absent "<"%char _ s Hlt).
Qed.

(** [escape] with the entities of [quoteattr] neither adds nor removes
    quote characters. *)
Lemma escape_keeps_quotes (q : ascii) (v : string) :
  q = Py.DQUOTE \/ q = Py.SQUOTE ->
  Py.contains q (Sax.escape_with v Sax.quoteattr_entities) = Py.contains q v.
Proof.
  intros Hq.
  unfold Sax.escape_with, Sax.quoteattr_entities. cbn [Sax.dict_replace].
  destruct Hq; subst q; repeat rewrite replace_keeps by reflexivity; reflexivity.
Qed.

(** The shape of what [quoteattr] returns. *)
Lemma quoteattr_form (v : string) :
  exists q : ascii,
    Sax.quoteattr v = String q (escaped_value q v ++ String q "")
    /\ (q = Py.DQUOTE \/ q = Py.SQUOTE)
    /\ Py.contains q (escaped_value q v) = false
    /\ (q = Py.SQUOTE <->
        Py.contains Py.DQUOTE v = true /\ Py.contains Py.SQUOTE v = false).
Proof.
  unfold Sax.quoteattr, escaped_value.
  pose proof (escape_keeps_quotes Py.DQUOTE v (or_introl eq_refl)) as Hd.
  pose proof (escape_keeps_quotes Py.SQUOTE v (or_intror eq_refl)) as Hs.
  set (data := Sax.escape_with v Sax.quoteattr_entities) in *.
  destruct (Py.contains Py.DQUOTE data) eqn:Ed.
  - destruct (Py.contains Py.SQUOTE data) eqn:Es.
    + exists Py.DQUOTE. cbn [Ascii.eqb Py.DQUOTE Bool.eqb].
      split; [reflexivity |]. split; [now left |].
      split; [now apply replace_removes |]. split.
      * intros Hq. discriminate Hq.
      * intros [_ Hno]. congruence.
    + exists Py.SQUOTE. cbn [Ascii.eqb Py.SQUOTE Py.DQUOTE Bool.eqb].
      split; [reflexivity |]. split; [now right |].
      split; [assumption |]. split.
      * intros _. split; congruence.
      * reflexivity.
  - exists Py.DQUOTE. cbn [Ascii.eqb Py.DQUOTE Bool.eqb].
    rewrite (replace_absent Py.DQUOTE "&quot;" data Ed).
    split; [reflexivity |]. split; [now left |].
    split; [assumption |]. split.
    + intros Hq. discriminate Hq.
    + intros [Hyes _]. congruence.
Qed.

Lemma attr_decls_loop (items : OrderedDict) (acc : list string) :
  fold_left
    (fun attr_decls item =>
       match snd item with
       | Some value =>
           (attr_decls
              ++ [(Sax.escape (fst item) ++ "=" ++ Sax.quoteattr value)%string])%list
       | None => (attr_decls ++ [Sax.escape (fst item)])%list
       end)
    items acc
  = (acc ++ List.map attr_decl items)%list.
Proof.
  revert acc. induction items as [|[k v] items IH]; intros acc; simpl.
  - now rewrite app_nil_r.
  - rewrite IH. unfold attr_decl at 2. simpl.
    destruct v; now rewrite <- app_assoc.
Qed.

Lemma attr_decl_has_form (item : string * option string) :
  attr_decl_form item (attr_decl item).
Proof.
  unfold attr_decl_form, attr_decl. destruct (snd item) as [value|].
  - destruct (quoteattr_form value) as (q & Heq & Hq & Hbody & Hiff).
    exists q. rewrite Heq. auto.
  - reflexivity.
Qed.

(** C6 (amended): the attribute string is the rendered attributes joined
    with single spaces in insertion order.  An attribute with a null
    value is rendered as its escaped key alone; one with a non-null
    value as [key=] followed by the escaped value between two quote
    characters, the same on both sides and absent in between: double
    quotes, unless the value contains a double quote and no apostrophe,
    in which case the value is wrapped in apostrophes. *)
Theorem attrs_str_form (e : XmlElement) :
  exists decls : list string,
    _get_attrs_str e = Py.join " " decls
    /\ Forall2 attr_decl_form (_attrs e) decls.
Proof.
  exists (List.map attr_decl (_attrs e)). split.
  - unfold _get_attrs_str. now rewrite attr_decls_loop.
  - induction (_attrs e) as [|item items IH]; simpl; constructor.
    + apply attr_decl_has_form.
    + exact IH.
Qed.

(** C6 (as stated) fails: a value with a double quote and no apostrophe
    is wrapped in apostrophes, with its double quote left as it is. *)
Lemma attr_value_in_apostrophes :
  let value := "x" ++ String Py.DQUOTE "y" in
  let e := __init__ "a" (Some [("title", Some value)]) false in
  _attrs e = [("title", Some value)]
  /\ _get_attrs_str e = "title='" ++ value ++ "'"
  /\ ~ (exists body : string,
          _get_attrs_str e = "title=" ++ String Py.DQUOTE (body ++ String Py.DQUOTE "")).
Proof.
  cbv zeta. repeat split.
  intros [body H]. vm_compute in H. discriminate H.
Qed.

Lemma element_str_no_children (e : XmlElement) :
  _children e = [] -> _attrs e = [] -> _doctype e = None ->
  __str__ e
  = if (_html e && negb (member (_name e) HTML_VOID_TAGS))%bool
    then "<" ++ Sax.escape (_name e) ++ "></" ++ Sax.escape (_name e) ++ ">"
         ++ String Py.LF ""
    else "<" ++ Sax.escape (_name e) ++ "/>" ++ String Py.LF "".
Proof.
  intros Hc Ha Hd. unfold __str__, element_str.
  rewrite Hc, Ha, Hd. cbn [is_empty].
  destruct (_html e && negb (member (_name e) HTML_VOID_TAGS))%bool;
    unfold IndentBase.get_string, StringBuilder.get_string; simpl;
    repeat (rewrite ?str_app_assoc; simpl); reflexivity.
Qed.

(** C5 (amended): an element with no children, no attributes and no
    doctype renders as [<tag/>] followed by a newline in non-HTML mode,
    and as [<tag></tag>] followed by a newline in HTML mode when the tag
    is not a void tag, where the tag is written XML-escaped ([&], [<]
    and [>] replaced); a tag without these characters is written as it
    is. *)
Theorem empty_element_str (e : XmlElement) :
  _children e = [] -> _attrs e = [] -> _doctype e = None ->
  (_html e = false ->
   __str__ e = "<" ++ Sax.escape (_name e) ++ "/>" ++ String Py.LF "")
  /\ (_html e = true -> member (_name e) HTML_VOID_TAGS = false ->
      __str__ e = "<" ++ Sax.escape (_name e) ++ "></" ++ Sax.escape (_name e)
                  ++ ">" ++ String Py.LF "")
  /\ (Py.contains "&"%char (_name e) = false ->
      Py.contains ">"%char (_name e) = false ->
      Py.contains "<"%char (_name e) = false ->
      Sax.escape (_name e) = _name e).
Proof.
  intros Hc Ha Hd. repeat split.
  - intros Hh. rewrite (element_str_no_children e Hc Ha Hd), Hh. reflexivity.
  - intros Hh Hv. rewrite (element_str_no_children e Hc Ha Hd), Hh, Hv. reflexivity.
  - apply escape_plain.
Qed.

(** C5 (as stated) fails: the rendered string ends with a newline. *)
Lemma empty_element_str_has_newline :
  __str__ (__init__ "br" None false) = "<br/>" ++ String Py.LF ""
  /\ __str__ (__init__ "br" None false) <> "<br/>"
  /\ __str__ (__init__ "div" None true) = "<div></div>" ++ String Py.LF ""
  /\ __str__ (__init__ "div" None true) <> "<div></div>".
Proof.
  repeat split; vm_compute; discriminate.
Qed.

Lemma empty_element_str_witness :
  let e := __init__ "div" None true in
  (_children e = [] /\ _attrs e = [] /\ _doctype e = None
   /\ _html e = true /\ member (_name e) HTML_VOID_TAGS = false)
  /\ __str__ e = "<" ++ Sax.escape "div" ++ "></" ++ Sax.escape "div" ++ ">"
                 ++ String Py.LF "".
Proof.
  cbv zeta. split; [repeat split |].
  refine (proj1 (proj2
    (empty_element_str (__init__ "div" None true) _ _ _)) _ _); reflexivity.
Defined.

End RenderFacts.

(** ** Examples *)
Section Examples.

Import IndentBase.

(** [iw.println("Hello,"); with iw: iw.println("World!")]. *)
Example enter_docstring :
  let iw : IndentWriter := println (__init__ (OutFile [])) "Hello," in
  let iw := fst (with_ iw (fun iw => (println iw "World!", @inl unit unit tt))) in
  Py.join "" (written (_sink iw))
  = "Hello," ++ String Py.LF ("    World!" ++ String Py.LF "").
Proof. reflexivity. Qed.

(** [iw.newline()], [with iw: iw.println("Hello,")], then
    [iw.println("World!")]: the block starts at line start, so its line
    is indented. *)
Example exit_after_newline :
  let iw : IndentWriter := newline (__init__ (OutFile [])) in
  let iw := fst (with_ iw (fun iw => (println iw "Hello,", @inl unit unit tt))) in
  let iw := println iw "World!" in
  Py.join "" (written (_sink iw))
  = String Py.LF ("    Hello," ++ String Py.LF ("World!" ++ String Py.LF "")).
Proof. reflexivity. Qed.

(** [x.p("hi", {'class': 'red'})] with the HTML factory. *)
Example functor_example :
  Xml.__str__
    (fst (Xml.XmlFunctor__call__ Xml.HTML_VOID_TAGS "p" true
            [Xml.Str "hi"; Xml.Dict [("class", Some "red")]] []))
  = "<p class=" ++ String Py.DQUOTE ("red" ++ String Py.DQUOTE (">" ++ String Py.LF
      ("    hi" ++ String Py.LF ("</p>" ++ String Py.LF "")))).
Proof. reflexivity. Qed.

End Examples.

(** ** Further properties of StringBuilder *)
Section StringBuilderMore.

Import StringBuilder.

(** X1: after any sequence of [append] calls, [get_string] is what it
    was before followed by the appended fragments in order, with nothing
    in between. *)
Theorem appends_concatenate (sb : t) (fragments : list string) :
  get_string (fold_left append fragments sb)
  = get_string sb ++ Py.join "" fragments.
Proof.
  revert sb. induction fragments as [|x xs IH]; intros sb; cbn [fold_left].
  - change (Py.join "" []) with "". now rewrite str_app_nil_r.
  - rewrite IH, get_string_append, join_empty_cons. apply str_app_assoc.
Qed.

Lemma contains_snoc (c x : ascii) (s : string) :
  Py.contains c (s ++ String x "") = (Py.contains c s || Ascii.eqb x c)%bool.
Proof. rewrite contains_app. simpl. now rewrite orb_false_r. Qed.

(** No piece of [split] holds the separator. *)
Lemma split_from_no_separator (c : ascii) (s cur : string) :
  Py.contains c cur = false ->
  Forall (fun piece => Py.contains c piece = false) (Py.split_from c cur s).
Proof.
  revert cur. induction s as [|x s IH]; intros cur Hcur; simpl.
  - now constructor.
  - destruct (Ascii.eqb x c) eqn:E.
    + constructor; [assumption | now apply IH].
    + apply IH. now rewrite contains_snoc, Hcur, E.
Qed.

Lemma truthy_nonempty (s : string) : Py.truthy s = true <-> s <> "".
Proof. destruct s; simpl; split; congruence. Qed.

(** X2: no line returned by [get_lines] is empty, and none holds a
    newline. *)
Theorem get_lines_clean (sb : t) :
  Forall (fun line => line <> "" /\ Py.contains Py.LF line = false) (get_lines sb).
Proof.
  unfold get_lines.
  assert (Hgen : forall (strings : list string) (acc : list string),
             Forall (fun line => line <> "" /\ Py.contains Py.LF line = false) acc ->
             Forall (fun line => line <> "" /\ Py.contains Py.LF line = false)
               (fold_left
                  (fun lines output_str =>
                     (lines ++ filter Py.truthy (Py.split Py.LF output_str))%list)
                  strings acc)).
  { induction strings as [|o strings IH]; intros acc Hacc; cbn [fold_left].
    - exact Hacc.
    - apply IH. apply Forall_app. split; [exact Hacc |].
      apply Forall_forall. intros line Hin.
      apply filter_In in Hin as [Hin Htruthy]. split.
      + now apply truthy_nonempty.
      + pose proof (split_from_no_separator Py.LF o "" eq_refl) as Hall.
        rewrite Forall_forall in Hall. now apply Hall. }
  apply Hgen. constructor.
Qed.

(** [get_lines] takes the fragments one at a time: a line that runs
    over two fragments is returned as two lines. *)
Lemma get_lines_append (sb : t) (fragment : string) :
  get_lines (append sb fragment)
  = (get_lines sb ++ filter Py.truthy (Py.split Py.LF fragment))%list.
Proof. unfold get_lines, append. cbn [_strings]. now rewrite fold_left_app. Qed.

End StringBuilderMore.

(** ** Further properties of the indent engine *)
Section EngineState.

Import IndentBase.
Context {Sink : Type} `{RawWriter Sink}.

Lemma do_calls_keep_output (s : t Sink) (cs : list call) :
  _sink (do_calls s cs) = _sink s
  /\ _isnewline (do_calls s cs) = _isnewline s
  /\ _indent_str (do_calls s cs) = _indent_str s.
Proof.
  revert s. induction cs as [|c cs IH]; intros s.
  - repeat split.
  - change (do_calls s (c :: cs)) with (do_calls (do_call s c) cs).
    destruct (IH (do_call s c)) as (Hs & Hn & Hu). rewrite Hs, Hn, Hu.
    destruct c as [k|k]; cbn [do_call]; unfold indent, unindent, set_il; cbn;
      try destruct (_il s - k <? 0); repeat split.
Qed.

(** X3: a newly made engine is not at line start: whatever [indent] and
    [unindent] calls come first, its first [write] passes on the text
    alone, with no prefix. *)
Theorem first_write_has_no_prefix (sink : Sink) (cs : list call) (text : string) :
  _sink (write (do_calls (__init__ sink) cs) text) = _write_raw_sink sink text.
Proof.
  destruct (do_calls_keep_output (__init__ sink) cs) as (Hs & Hn & _).
  unfold write. rewrite Hn. cbn [__init__ _isnewline].
  unfold _write_raw. cbn [_sink]. now rewrite Hs.
Qed.

(** X4: from a depth [>= 0], [indent(k)] followed by [unindent(k)] gives
    the engine back as it was, for every integer [k]; [unindent(k)]
    followed by [indent(k)] gives back the depth only when [k] does not
    exceed it. *)
Theorem indent_unindent_round_trip (s : t Sink) (k : Z) :
  0 <= _il s ->
  unindent (indent s k) k = s
  /\ (_il (indent (unindent s k) k) = _il s <-> k <= _il s).
Proof.
  intros H0. split.
  - destruct s as [il unit enabled isnewline sink]. cbn in H0.
    unfold unindent, indent, set_il. cbn.
    replace (il + k - k) with il by lia.
    destruct (il <? 0) eqn:E; [apply Z.ltb_lt in E; lia | reflexivity].
  - rewrite il_indent, il_unindent. lia.
Qed.

End EngineState.

Section EngineOutput.

Import IndentBase Shape.

Implicit Types (s : IndentStringBuilder) (text : string).

Lemma get_string_write_raw s text :
  get_string (_write_raw s text) = get_string s ++ text.
Proof. unfold get_string, _write_raw. cbn [_sink]. apply get_string_append. Qed.

Lemma get_string_write s text :
  get_string (write s text)
  = get_string s
    ++ (if _isnewline s then Py.str_mul (_indent_str s) (_il s) else "")
    ++ text.
Proof.
  unfold write. destruct (_isnewline s).
  - rewrite !get_string_write_raw. unfold set_isnewline, get_string. cbn.
    apply str_app_assoc.
  - now rewrite get_string_write_raw.
Qed.

Lemma get_string_println s text :
  get_string (println s text)
  = get_string s
    ++ (if _isnewline s then Py.str_mul (_indent_str s) (_il s) else "")
    ++ text ++ String Py.LF "".
Proof.
  unfold println, newline. rewrite get_string_write_raw.
  change (get_string (set_isnewline (write s text) true))
    with (get_string (write s text)).
  rewrite get_string_write. now rewrite !str_app_assoc.
Qed.

Lemma println_state s text :
  _il (println s text) = _il s
  /\ _indent_str (println s text) = _indent_str s
  /\ _enabled (println s text) = _enabled s
  /\ _isnewline (println s text) = true.
Proof.
  unfold println, newline, write, _write_raw, set_isnewline.
  destruct (_isnewline s); cbn; repeat split.
Qed.

Lemma printlns_at_line_start (lines : list string) s :
  _isnewline s = true ->
  get_string (fold_left println lines s)
  = get_string s ++ indented_lines (_indent_str s) (_il s) lines
  /\ _il (fold_left println lines s) = _il s
  /\ _indent_str (fold_left println lines s) = _indent_str s
  /\ _enabled (fold_left println lines s) = _enabled s
  /\ _isnewline (fold_left println lines s) = true.
Proof.
  revert s. induction lines as [|line lines IH]; intros s Hs; cbn [fold_left].
  - unfold indented_lines. cbn [List.map]. change (Py.join "" []) with "".
    rewrite str_app_nil_r. repeat split. exact Hs.
  - destruct (println_state s line) as (Hil & Hunit & Hen & Hnl).
    destruct (IH (println s line) Hnl) as (Hg & H1 & H2 & H3 & H4).
    rewrite Hg, H1, H2, H3, H4, Hil, Hunit, Hen.
    repeat split.
    rewrite get_string_println, Hs.
    unfold indented_lines. cbn [List.map]. rewrite join_empty_cons.
    now rewrite !str_app_assoc.
Qed.

(** X5: [print_lines] prints every line of the text (as [splitlines]
    cuts it) followed by a newline.  Each line is preceded by the prefix,
    [_indent_str] repeated [_il] times, except that the first one has no
    prefix when the engine was not at line start.  A text without lines
    prints nothing. *)
Theorem print_lines_output s text :
  get_string (print_lines s text)
  = get_string s
    ++ match Py.splitlines text with
       | [] => ""
       | first :: rest =>
           (if _isnewline s then Py.str_mul (_indent_str s) (_il s) else "")
           ++ first ++ String Py.LF ""
           ++ indented_lines (_indent_str s) (_il s) rest
       end.
Proof.
  unfold print_lines. destruct (Py.splitlines text) as [|first rest]; cbn [fold_left].
  - now rewrite str_app_nil_r.
  - destruct (println_state s first) as (Hil & Hunit & _ & Hnl).
    destruct (printlns_at_line_start rest (println s first) Hnl) as (Hg & _).
    rewrite Hg, Hil, Hunit, get_string_println.
    now rewrite !str_app_assoc.
Qed.

Lemma str_mul_nonpositive (unit : string) (n : Z) :
  n <= 0 -> Py.str_mul unit n = "".
Proof.
  intros Hn. unfold Py.str_mul.
  replace (Z.to_nat n) with 0%nat by lia. reflexivity.
Qed.

(** X6: an indent level below zero is equivalent to zero: at a depth
    [<= 0] a line is printed without any prefix, at line start too. *)
Theorem negative_depth_prints_no_prefix s text :
  _il s <= 0 ->
  get_string (println s text) = get_string s ++ text ++ String Py.LF "".
Proof.
  intros Hil. rewrite get_string_println.
  destruct (_isnewline s); [rewrite (str_mul_nonpositive _ _ Hil) |]; reflexivity.
Qed.

(** Chunks put before the output stay there: the engine only adds at
    the end and never looks at what it has written. *)
Lemma println_after_chunks (chunks : list string) s text :
  println (after_chunks chunks s) text = after_chunks chunks (println s text).
Proof.
  unfold println, newline, write, _write_raw, set_isnewline, after_chunks.
  cbn [_isnewline _il _indent_str _enabled _sink].
  unfold _write_raw_sink, IndentStringBuilder_raw, StringBuilder.append.
  destruct (_isnewline s); cbn [_isnewline _il _indent_str _enabled _sink StringBuilder._strings];
    now rewrite <- ?app_assoc.
Qed.

Lemma printlns_after_chunks (chunks : list string) (lines : list string) s :
  fold_left println lines (after_chunks chunks s)
  = after_chunks chunks (fold_left println lines s).
Proof.
  revert s. induction lines as [|line lines IH]; intros s; cbn [fold_left].
  - reflexivity.
  - now rewrite println_after_chunks, IH.
Qed.

Lemma print_lines_after_chunks (chunks : list string) s text :
  print_lines (after_chunks chunks s) text = after_chunks chunks (print_lines s text).
Proof. unfold print_lines. apply printlns_after_chunks. Qed.

Lemma get_string_after_chunks (chunks : list string) s :
  get_string (after_chunks chunks s) = Py.join "" chunks ++ get_string s.
Proof.
  unfold get_string, after_chunks, StringBuilder.get_string.
  cbn [_sink StringBuilder._strings]. apply join_empty_app.
Qed.

End EngineOutput.

Section EngineOutputExamples.

Import IndentBase.

Lemma indent_unindent_round_trip_witness :
  let s : IndentWriter := indent (__init__ (OutFile [])) 1 in
  0 <= _il s /\ unindent (indent s 3) 3 = s.
Proof.
  cbv zeta.
  assert (H0 : 0 <= _il (indent (__init__ (OutFile [])) 1)) by (simpl; lia).
  split; [exact H0 |].
  exact (proj1 (indent_unindent_round_trip (indent (__init__ (OutFile [])) 1) 3 H0)).
Defined.

Lemma negative_depth_prints_no_prefix_witness :
  let s : IndentStringBuilder := newline (indent IndentStringBuilder__init__ (-2)) in
  _il s <= 0
  /\ get_string (println s "x")
     = get_string s ++ "x" ++ String Py.LF "".
Proof.
  cbv zeta.
  assert (H0 : _il (newline (indent IndentStringBuilder__init__ (-2))) <= 0)
    by (simpl; lia).
  split; [exact H0 |].
  exact (negative_depth_prints_no_prefix
           (newline (indent IndentStringBuilder__init__ (-2))) "x" H0).
Defined.

End EngineOutputExamples.

(** ** Escaping and text nodes *)
Section EscapeFacts.

Import Shape.

Lemma replace_app (c : ascii) (new a b : string) :
  Py.replace c new (a ++ b) = Py.replace c new a ++ Py.replace c new b.
Proof.
  induction a as [|x a IH]; simpl; [reflexivity |].
  destruct (Ascii.eqb x c); rewrite IH; [now rewrite str_app_assoc | reflexivity].
Qed.

Lemma substitute_app (f : ascii -> string) (a b : string) :
  substitute f (a ++ b) = substitute f a ++ substitute f b.
Proof.
  induction a as [|x a IH]; simpl; [reflexivity |].
  now rewrite IH, str_app_assoc.
Qed.

(** The three [replace] passes of [escape], done one after the other
    with the ampersand first, come to replacing each character on its
    own: no pass touches what an earlier one wrote. *)
Lemma escape_by_character (s : string) :
  Sax.escape s = substitute escape_char s.
Proof.
  unfold Sax.escape, Sax.escape_with. cbn [Sax.dict_replace].
  induction s as [|x s IH]; [reflexivity |].
  cbn [substitute]. rewrite <- IH. unfold escape_char.
  cbn [Py.replace].
  destruct (Ascii.eqb x "&"%char) eqn:Eamp.
  - now rewrite !replace_app.
  - cbn [Py.replace]. destruct (Ascii.eqb x ">"%char) eqn:Egt.
    + now rewrite !replace_app.
    + cbn [Py.replace]. destruct (Ascii.eqb x "<"%char) eqn:Elt; reflexivity.
Qed.

(** X7: text is escaped piece by piece: the escaped form of two texts
    put together is their escaped forms put together. *)
Theorem text_str_app (a b : string) :
  Xml.str (Xml.XmlText (a ++ b))
  = Xml.str (Xml.XmlText a) ++ Xml.str (Xml.XmlText b).
Proof. cbn [Xml.str]. rewrite !escape_by_character. apply substitute_app. Qed.

(** X8: a rendered text node holds neither [<] nor [>], and if the text
    holds none of [&], [<], [>] it is rendered as it is. *)
Theorem text_str_has_no_angle_bracket (text : string) :
  Py.contains "<"%char (Xml.str (Xml.XmlText text)) = false
  /\ Py.contains ">"%char (Xml.str (Xml.XmlText text)) = false
  /\ (Py.contains "&"%char text = false ->
      Py.contains "<"%char text = false ->
      Py.contains ">"%char text = false ->
      Xml.str (Xml.XmlText text) = text).
Proof.
  cbn [Xml.str]. unfold Sax.escape, Sax.escape_with. cbn [Sax.dict_replace].
  split; [| split].
  - now apply replace_removes.
  - rewrite replace_keeps by reflexivity. now apply replace_removes.
  - intros Hamp Hlt Hgt.
    rewrite (replace_absent "&"%char _ text Hamp).
    rewrite (replace_absent ">"%char _ text Hgt).
    now rewrite (replace_absent "<"%char _ text Hlt).
Qed.

Lemma escape_char_cases (c : ascii) :
  (c = "&"%char /\ escape_char c = "&amp;")
  \/ (c = ">"%char /\ escape_char c = "&gt;")
  \/ (c = "<"%char /\ escape_char c = "&lt;")
  \/ (c <> "&"%char /\ escape_char c = String c "").
Proof.
  unfold escape_char.
  destruct (Ascii.eqb c "&"%char) eqn:Eamp.
  - left. apply Ascii.eqb_eq in Eamp. now split.
  - destruct (Ascii.eqb c ">"%char) eqn:Egt.
    + right. left. apply Ascii.eqb_eq in Egt. now split.
    + destruct (Ascii.eqb c "<"%char) eqn:Elt.
      * right. right. left. apply Ascii.eqb_eq in Elt. now split.
      * right. right. right. apply Ascii.eqb_neq in Eamp. now split.
Qed.

Lemma substitute_escape_injective (a b : string) :
  substitute escape_char a = substitute escape_char b -> a = b.
Proof.
  revert b. induction a as [|x a IH]; intros [|y b] Heq; cbn [substitute] in Heq.
  - reflexivity.
  - destruct (escape_char_cases y) as [[_ E]|[[_ E]|[[_ E]|[_ E]]]];
      rewrite E in Heq; discriminate Heq.
  - destruct (escape_char_cases x) as [[_ E]|[[_ E]|[[_ E]|[_ E]]]];
      rewrite E in Heq; discriminate Heq.
  - destruct (escape_char_cases x) as [[Hx Ex]|[[Hx Ex]|[[Hx Ex]|[Hx Ex]]]];
    destruct (escape_char_cases y) as [[Hy Ey]|[[Hy Ey]|[[Hy Ey]|[Hy Ey]]]];
      rewrite Ex, Ey in Heq; cbn in Heq;
      try discriminate Heq;
      try (injection Heq as Heq; f_equal; [congruence | now apply IH]);
      try (injection Heq as Hc Heq; congruence).
Qed.

(** X9: escaping loses nothing: two texts that render the same are the
    same text. *)
Theorem text_str_injective (a b : string) :
  Xml.str (Xml.XmlText a) = Xml.str (Xml.XmlText b) -> a = b.
Proof.
  cbn [Xml.str]. rewrite !escape_by_character. apply substitute_escape_injective.
Qed.

Lemma text_str_injective_witness :
  Xml.str (Xml.XmlText "a<b") = Xml.str (Xml.XmlText ("a" ++ "<b"))
  /\ "a<b" = "a" ++ "<b".
Proof.
  split; [reflexivity |].
  exact (text_str_injective "a<b" ("a" ++ "<b") eq_refl).
Defined.

End EscapeFacts.

(** ** What [apply] keeps *)
Section ApplyInvariants.

Import Xml Shape.

Variable order : list string.

(** Induction over the arguments of [apply], lists within lists included. *)
Lemma arg_nested_ind (P : arg -> Prop) :
  (forall s, P (Str s)) ->
  (forall l, Forall P l -> P (Seq l)) ->
  (forall d, P (Dict d)) ->
  (forall n, P (Child n)) ->
  forall a, P a.
Proof.
  intros HStr HSeq HDict HChild.
  fix IH 1. intros [s|l|d|n].
  - apply HStr.
  - apply HSeq. revert l. fix IHl 1. intros [|a l].
    + constructor.
    + constructor; [apply IH | apply IHl].
  - apply HDict.
  - apply HChild.
Qed.

Lemma set_attrs_same (self : XmlElement) : set_attrs self (_attrs self) = self.
Proof. now destruct self. Qed.

Lemma for_each_app {A : Type} (body : XmlElement -> A -> outcome)
    (xs ys : list A) (self : XmlElement) :
  for_each body (xs ++ ys) self
  = match for_each body xs self with
    | (self', None) => for_each body ys self'
    | raised => raised
    end.
Proof.
  revert self. induction xs as [|x xs IH]; intros self; cbn [for_each app].
  - reflexivity.
  - destruct (body self x) as [self' [e|]]; [reflexivity | apply IH].
Qed.

Lemma for_each_preserves {A : Type} (P : XmlElement -> Prop)
    (body : XmlElement -> A -> outcome) (xs : list A) :
  Forall (fun x => forall self, P self -> P (fst (body self x))) xs ->
  forall self, P self -> P (fst (for_each body xs self)).
Proof.
  induction 1 as [|x xs Hx _ IH]; intros self HP; cbn [for_each].
  - exact HP.
  - specialize (Hx self HP).
    destruct (body self x) as [self' [e|]]; cbn [fst] in *.
    + exact Hx.
    + now apply IH.
Qed.

Lemma for_each_succeeds {A : Type} (P : XmlElement -> Prop)
    (body : XmlElement -> A -> outcome) (xs : list A) :
  Forall (fun x => forall self, P self ->
                   P (fst (body self x)) /\ snd (body self x) = None) xs ->
  forall self, P self ->
  P (fst (for_each body xs self)) /\ snd (for_each body xs self) = None.
Proof.
  induction 1 as [|x xs Hx _ IH]; intros self HP; cbn [for_each].
  - now split.
  - destruct (Hx self HP) as [HP' Hnone].
    destruct (body self x) as [self' [e|]]; cbn [fst snd] in *.
    + discriminate Hnone.
    + now apply IH.
Qed.

Lemma update_steps (P : OrderedDict -> Prop) (other d : OrderedDict) :
  (forall d key value, P d -> P (setitem d key value)) ->
  P d -> P (update d other).
Proof.
  intros Hstep. unfold update. revert d.
  induction other as [|[k v] other IH]; intros d HP; cbn [fold_left].
  - exact HP.
  - apply IH. now apply Hstep.
Qed.

(** A property of elements that survives setting one attribute and
    adding one child where the void-tag guard lets it through survives
    every call of [apply], a failed one too. *)
Lemma apply_preserves (P : XmlElement -> Prop) :
  (forall self key value,
      P self -> P (set_attrs self (setitem (_attrs self) key value))) ->
  (forall self child,
      P self -> (_html self && member (_name self) HTML_VOID_TAGS)%bool = false ->
      P (set_children self (_children self ++ [child])%list)) ->
  forall (args : list arg) (kwargs : OrderedDict) (self : XmlElement),
    P self -> P (fst (apply order self args kwargs)).
Proof.
  intros Hattr Hchild.
  assert (Happend : forall self child, P self -> P (fst (append order self child))).
  { intros self child HP. unfold append.
    destruct (_html self && member (_name self) HTML_VOID_TAGS)%bool eqn:E; cbn [fst].
    - exact HP.
    - now apply Hchild. }
  assert (Hmerge : forall item self, P self -> P (fst (merge_item self item))).
  { intros [key value] self HP. unfold merge_item.
    destruct (String.eqb key "class" && _html self && has_key (_attrs self) "class")%bool.
    - destruct (getitem (_attrs self) "class") as [[old|]|]; try exact HP.
      destruct value as [value|]; [| exact HP]. cbn [fst]. now apply Hattr.
    - cbn [fst]. now apply Hattr. }
  assert (Harg : forall a self, P self -> P (fst (apply_arg order self a))).
  { induction a as [s|l IHl|d|n] using arg_nested_ind; intros self HP; cbn [apply_arg].
    - now apply Happend.
    - change (update (_attrs self) []) with (_attrs self). rewrite set_attrs_same.
      now apply for_each_preserves.
    - apply for_each_preserves; [| exact HP].
      apply Forall_forall. intros item _. apply Hmerge.
    - now apply Happend. }
  intros args kwargs self HP. unfold apply.
  apply for_each_preserves.
  - apply Forall_forall. intros a _. apply Harg.
  - apply (update_steps (fun d => P (set_attrs self d))).
    + intros d key value Hd. exact (Hattr (set_attrs self d) key value Hd).
    + now rewrite set_attrs_same.
Qed.

End ApplyInvariants.

Section ApplyFacts.

Import Xml Shape.

Lemma has_key_In (d : OrderedDict) (key : string) :
  has_key d key = true <-> In key (keys d).
Proof.
  unfold has_key, keys. rewrite existsb_exists, in_map_iff. split.
  - intros [kv [Hin Heq]]. apply String.eqb_eq in Heq. now exists kv.
  - intros [kv [Heq Hin]]. exists kv. split; [assumption |].
    now apply String.eqb_eq.
Qed.

Lemma keys_setitem (d : OrderedDict) (key : string) (value : option string) :
  keys (setitem d key value)
  = (keys d ++ (if has_key d key then [] else [key]))%list.
Proof.
  unfold keys, has_key. induction d as [|[k v] d IH]; cbn.
  - reflexivity.
  - destruct (String.eqb k key) eqn:E; cbn.
    + apply String.eqb_eq in E. subst k. now rewrite app_nil_r.
    + now rewrite IH.
Qed.

Lemma getitem_setitem_other (d : OrderedDict) (key other : string)
    (value : option string) :
  other <> key -> getitem (setitem d other value) key = getitem d key.
Proof.
  intros Hne. apply String.eqb_neq in Hne.
  induction d as [|[k v] d IH]; cbn.
  - now rewrite Hne.
  - destruct (String.eqb k other) eqn:E; cbn.
    + apply String.eqb_eq in E. subst k. now rewrite Hne.
    + now rewrite IH.
Qed.

Lemma update_snoc (d other : OrderedDict) (key : string) (value : option string) :
  update d (other ++ [(key, value)])%list = setitem (update d other) key value.
Proof. unfold update. now rewrite fold_left_app. Qed.

(** Lookup after [update]: the last value given for the key, or the old
    value when the key is not given. *)
Lemma getitem_update (d other : OrderedDict) (key : string) :
  getitem (update d other) key
  = match getitem (rev other) key with
    | Some value => Some value
    | None => getitem d key
    end.
Proof.
  induction other as [|[k v] other IH] using rev_ind.
  - reflexivity.
  - rewrite update_snoc, rev_app_distr. cbn [rev app getitem].
    destruct (String.eqb k key) eqn:E.
    + apply String.eqb_eq in E. subst k. apply getitem_setitem.
    + apply String.eqb_neq in E. now rewrite getitem_setitem_other.
Qed.

(** X10: [apply] never changes the tag, the HTML mode or the doctype of
    the element, whatever the arguments and whether it fails or not. *)
Theorem apply_keeps_tag_and_mode (order : list string) (e : XmlElement)
    (args : list arg) (kwargs : OrderedDict) :
  _name (fst (apply order e args kwargs)) = _name e
  /\ _html (fst (apply order e args kwargs)) = _html e
  /\ _doctype (fst (apply order e args kwargs)) = _doctype e.
Proof.
  apply (apply_preserves order
           (fun self => _name self = _name e /\ _html self = _html e
                        /\ _doctype self = _doctype e)).
  - intros self key value H. exact H.
  - intros self child H _. exact H.
  - repeat split.
Qed.

Lemma setitem_keeps_keys_unique (d : OrderedDict) (key : string)
    (value : option string) :
  NoDup (keys d) -> NoDup (keys (setitem d key value)).
Proof.
  intros H. rewrite keys_setitem.
  destruct (has_key d key) eqn:E.
  - now rewrite app_nil_r.
  - apply NoDup_app; [exact H | repeat constructor; intros [] | ].
    intros x Hin [Hx|[]]. subst x.
    apply has_key_In in Hin. congruence.
Qed.

(** X11: [apply] keeps the attribute keys unique, whatever the
    arguments and whether it fails or not. *)
Theorem apply_keeps_keys_unique (order : list string) (e : XmlElement)
    (args : list arg) (kwargs : OrderedDict) :
  NoDup (keys (_attrs e)) ->
  NoDup (keys (_attrs (fst (apply order e args kwargs)))).
Proof.
  apply (apply_preserves order (fun self => NoDup (keys (_attrs self)))).
  - intros self key value H. cbn [set_attrs _attrs].
    now apply setitem_keeps_keys_unique.
  - intros self child H _. exact H.
Qed.

(** X12: [apply] never removes or moves an attribute: the keys the
    element had are still there, in the same order and before any new
    key, whatever the arguments and whether it fails or not. *)
Theorem apply_keeps_attribute_order (order : list string) (e : XmlElement)
    (args : list arg) (kwargs : OrderedDict) :
  exists added : list string,
    keys (_attrs (fst (apply order e args kwargs))) = (keys (_attrs e) ++ added)%list.
Proof.
  apply (apply_preserves order
           (fun self => exists added,
                keys (_attrs self) = (keys (_attrs e) ++ added)%list)).
  - intros self key value [added H]. cbn [set_attrs _attrs].
    rewrite keys_setitem, H.
    exists (added ++ (if has_key (_attrs self) key then [] else [key]))%list.
    now rewrite app_assoc.
  - intros self child H _. exact H.
  - exists []. now rewrite app_nil_r.
Qed.

(** X13: [apply] never removes or moves a child: the children the
    element had are still there, in the same order and before any new
    child, whatever the arguments and whether it fails or not. *)
Theorem apply_only_adds_children (order : list string) (e : XmlElement)
    (args : list arg) (kwargs : OrderedDict) :
  exists added : list Node,
    _children (fst (apply order e args kwargs)) = (_children e ++ added)%list.
Proof.
  apply (apply_preserves order
           (fun self => exists added, _children self = (_children e ++ added)%list)).
  - intros self key value H. exact H.
  - intros self child [added H] _. cbn [set_children _children].
    exists (added ++ [child])%list. now rewrite H, app_assoc.
  - exists []. now rewrite app_nil_r.
Qed.

(** X14: an element in HTML mode with a void tag never gets a child
    from [apply], whatever the arguments (strings, nodes, lists of them
    at any depth, mappings, named arguments). *)
Theorem void_element_never_gets_children (order : list string) (e : XmlElement)
    (args : list arg) (kwargs : OrderedDict) :
  _html e = true -> In (_name e) HTML_VOID_TAGS ->
  _children (fst (apply order e args kwargs)) = _children e.
Proof.
  intros Hhtml Hvoid. apply member_In in Hvoid.
  apply (apply_preserves order
           (fun self => (_html self = true /\ member (_name self) HTML_VOID_TAGS = true)
                        /\ _children self = _children e)).
  - intros self key value H. exact H.
  - intros self child [[Hh Hv] _] Hguard. rewrite Hh, Hv in Hguard. discriminate Hguard.
  - repeat split; assumption.
Qed.

Lemma apply_arg_in_xml_mode (order : list string) (a : arg) (self : XmlElement) :
  _html self = false ->
  _html (fst (apply_arg order self a)) = false
  /\ snd (apply_arg order self a) = None.
Proof.
  revert self.
  induction a as [s|l IHl|d|n] using arg_nested_ind; intros self Hs; cbn [apply_arg].
  - unfold append. rewrite Hs. cbn. now split.
  - change (update (_attrs self) []) with (_attrs self). rewrite set_attrs_same.
    now apply (for_each_succeeds (fun self => _html self = false)).
  - apply (for_each_succeeds (fun self => _html self = false)); [| exact Hs].
    apply Forall_forall. intros [key value] _ self' Hs'. unfold merge_item.
    rewrite Hs', andb_false_r. cbn. now split.
  - unfold append. rewrite Hs. cbn. now split.
Qed.

Lemma apply_in_xml_mode (order : list string) (e : XmlElement)
    (args : list arg) (kwargs : OrderedDict) :
  _html e = false ->
  _html (fst (apply order e args kwargs)) = false
  /\ snd (apply order e args kwargs) = None.
Proof.
  intros Hhtml. unfold apply.
  apply (for_each_succeeds (fun self => _html self = false)).
  - apply Forall_forall. intros a _. apply apply_arg_in_xml_mode.
  - exact Hhtml.
Qed.

(** X15: on an element that is not in HTML mode [apply] never raises,
    whatever the arguments: outside HTML mode there is no void-tag guard
    and no joining of [class] values. *)
Theorem apply_never_fails_in_xml_mode (order : list string) (e : XmlElement)
    (args : list arg) (kwargs : OrderedDict) :
  _html e = false -> snd (apply order e args kwargs) = None.
Proof. intros Hhtml. now apply apply_in_xml_mode. Qed.

End ApplyFacts.

Section ApplyComposition.

Import Xml Shape.

Lemma for_each_single {A : Type} (body : XmlElement -> A -> outcome)
    (x : A) (self : XmlElement) :
  for_each body [x] self = body self x.
Proof. cbn [for_each]. now destruct (body self x) as [self' [e|]]. Qed.

Lemma for_each_flatten (order : list string) (a : arg) (self : XmlElement) :
  for_each (apply_arg order) (flatten a) self = apply_arg order self a.
Proof.
  revert self.
  induction a as [s|l IHl|d|n] using arg_nested_ind; intros self;
    try (cbn [flatten]; apply for_each_single).
  cbn [flatten apply_arg].
  change (update (_attrs self) []) with (_attrs self). rewrite set_attrs_same.
  revert self. induction IHl as [|a l Ha _ IH]; intros self; cbn [flat_map].
  - reflexivity.
  - rewrite for_each_app, Ha. cbn [for_each].
    destruct (apply_arg order self a) as [self' [e|]]; [reflexivity | apply IH].
Qed.

Lemma flatten_has_no_list (a : arg) :
  Forall (fun leaf => match leaf with Seq _ => False | _ => True end) (flatten a).
Proof.
  induction a as [s|l IHl|d|n] using arg_nested_ind;
    try (cbn [flatten]; repeat constructor).
  cbn [flatten]. induction IHl as [|a l Ha _ IH]; cbn [flat_map].
  - constructor.
  - apply Forall_app. now split.
Qed.

(** X16: a list or tuple among the arguments of [apply], at any depth,
    stands for its items: the call does what it does with every list
    replaced by its items in place. *)
Theorem apply_expands_lists (order : list string) (e : XmlElement)
    (args : list arg) (kwargs : OrderedDict) :
  apply order e args kwargs = apply order e (flat_map flatten args) kwargs
  /\ Forall (fun leaf => match leaf with Seq _ => False | _ => True end)
       (flat_map flatten args).
Proof.
  split.
  - unfold apply. generalize (set_attrs e (update (_attrs e) kwargs)).
    induction args as [|a args IH]; intros self; cbn [flat_map].
    + reflexivity.
    + rewrite for_each_app, for_each_flatten. cbn [for_each].
      destruct (apply_arg order self a) as [self' [x|]]; [reflexivity | apply IH].
  - induction args as [|a args IH]; cbn [flat_map].
    + constructor.
    + apply Forall_app. split; [apply flatten_has_no_list | exact IH].
Qed.

(** X17: the positional arguments are taken from left to right and the
    first exception ends the call: with more arguments after [args],
    a call that fails on [args] does the same and fails the same, and
    one that succeeds goes on as a second call with the other arguments. *)
Theorem apply_left_to_right (order : list string) (e : XmlElement)
    (args more : list arg) (kwargs : OrderedDict) :
  apply order e (args ++ more) kwargs
  = match apply order e args kwargs with
    | (e', None) => apply order e' more []
    | raised => raised
    end.
Proof.
  unfold apply at 1 2. rewrite for_each_app.
  destruct (for_each (apply_arg order) args (set_attrs e (update (_attrs e) kwargs)))
    as [e' [x|]]; [reflexivity |].
  now rewrite apply_no_kwargs.
Qed.

(** X18: named arguments: after [apply] with named arguments alone, an
    attribute named in the call has the last value given for it, and any
    other attribute has the value it had. *)
Theorem named_arguments_last_wins (order : list string) (e : XmlElement)
    (kwargs : OrderedDict) (key : string) :
  snd (apply order e [] kwargs) = None
  /\ getitem (_attrs (fst (apply order e [] kwargs))) key
     = match getitem (rev kwargs) key with
       | Some value => Some value
       | None => getitem (_attrs e) key
       end.
Proof.
  unfold apply. cbn [for_each fst snd set_attrs _attrs].
  split; [reflexivity | apply getitem_update].
Qed.

Lemma append_allowed (order : list string) (self : XmlElement) (child : Node) :
  (_html self && member (_name self) HTML_VOID_TAGS)%bool = false ->
  append order self child
  = (set_children self (_children self ++ [child])%list, None).
Proof. intros H. unfold append. now rewrite H. Qed.

Lemma set_children_same (self : XmlElement) : set_children self (_children self) = self.
Proof. now destruct self. Qed.

(** X19: on an element that is not a void element in HTML mode, [apply]
    with strings adds one text node per string, and [apply] with nodes
    adds the nodes, after the children already there and in the order
    given. *)
Theorem apply_appends_in_order (order : list string) (e : XmlElement)
    (texts : list string) (nodes : list Node) :
  (_html e && member (_name e) HTML_VOID_TAGS)%bool = false ->
  apply order e (List.map Str texts) []
  = (set_children e (_children e ++ List.map XmlText texts)%list, None)
  /\ apply order e (List.map Child nodes) []
     = (set_children e (_children e ++ nodes)%list, None).
Proof.
  intros Hguard. rewrite !apply_no_kwargs. split.
  - revert e Hguard. induction texts as [|t texts IH]; intros e Hguard;
      cbn [List.map for_each].
    + now rewrite app_nil_r, set_children_same.
    + cbn [apply_arg]. rewrite (append_allowed order e _ Hguard).
      rewrite IH by exact Hguard.
      cbn [set_children _children _name _html _doctype _attrs].
      now rewrite <- app_assoc.
  - revert e Hguard. induction nodes as [|n nodes IH]; intros e Hguard;
      cbn [List.map for_each].
    + now rewrite app_nil_r, set_children_same.
    + cbn [apply_arg]. rewrite (append_allowed order e _ Hguard).
      rewrite IH by exact Hguard.
      cbn [set_children _children _name _html _doctype _attrs].
      now rewrite <- app_assoc.
Qed.

Lemma apply_keeps_keys_unique_witness :
  let e := __init__ "a" (Some [("href", Some "x"); ("id", None)]) true in
  let e' := fst (apply [] e [Dict [("id", Some "top")]; Str "go"] [("href", Some "y")]) in
  NoDup (keys (_attrs e)) /\ NoDup (keys (_attrs e')).
Proof.
  cbv zeta.
  assert (H : NoDup (keys (_attrs (__init__ "a" (Some [("href", Some "x"); ("id", None)]) true)))).
  { cbn. repeat constructor; cbn; intuition discriminate. }
  split; [exact H |].
  exact (apply_keeps_keys_unique [] _ [Dict [("id", Some "top")]; Str "go"]
           [("href", Some "y")] H).
Defined.

Lemma void_element_never_gets_children_witness :
  let e := __init__ "hr" None true in
  _html e = true
  /\ _children (fst (apply [] e [Dict [("id", Some "x")]; Seq [Seq [Str "a"]]] []))
     = _children e.
Proof.
  cbv zeta. split; [reflexivity |].
  refine (void_element_never_gets_children [] (__init__ "hr" None true)
            [Dict [("id", Some "x")]; Seq [Seq [Str "a"]]] [] _ _).
  - reflexivity.
  - cbn. tauto.
Defined.

Lemma apply_never_fails_in_xml_mode_witness :
  let e := __init__ "br" None false in
  _html e = false
  /\ snd (apply [] e [Str "a"; Dict [("class", None)]; Dict [("class", None)]] []) = None.
Proof.
  cbv zeta. split; [reflexivity |].
  exact (apply_never_fails_in_xml_mode [] (__init__ "br" None false)
           [Str "a"; Dict [("class", None)]; Dict [("class", None)]] [] eq_refl).
Defined.

Lemma apply_appends_in_order_witness :
  let e := __init__ "ul" None true in
  (_html e && member (_name e) HTML_VOID_TAGS)%bool = false
  /\ apply [] e (List.map Str ["a"; "b"]) []
     = (set_children e (_children e ++ List.map XmlText ["a"; "b"])%list, None).
Proof.
  cbv zeta. split; [reflexivity |].
  exact (proj1 (apply_appends_in_order [] (__init__ "ul" None true) ["a"; "b"] []
                  eq_refl)).
Defined.

End ApplyComposition.

Section ClassMergeErrors.

Import Xml.



End ClassMergeErrors.

(** ** Further properties of rendering *)
Section RenderMore.

Import Xml Shape.

Lemma contains_join (c : ascii) (sep : string) (parts : list string) :
  Py.contains c sep = false ->
  Forall (fun part => Py.contains c part = false) parts ->
  Py.contains c (Py.join sep parts) = false.
Proof.
  intros Hsep. unfold Py.join.
  induction 1 as [|x xs Hx Hxs IH]; [reflexivity |].
  cbn [String.concat]. destruct xs as [|y ys]; [exact Hx |].
  now rewrite !contains_app, Hx, Hsep, IH.
Qed.

Lemma escape_has_no_angle_bracket (c : ascii) (s : string) :
  c = "<"%char \/ c = ">"%char -> Py.contains c (Sax.escape s) = false.
Proof.
  unfold Sax.escape, Sax.escape_with. cbn [Sax.dict_replace].
  intros [Hc|Hc]; subst c.
  - now apply replace_removes.
  - rewrite replace_keeps by reflexivity. now apply replace_removes.
Qed.

Lemma quoteattr_has_no_angle_bracket (c : ascii) (v : string) :
  c = "<"%char \/ c = ">"%char -> Py.contains c (Sax.quoteattr v) = false.
Proof.
  intros Hc.
  assert (Hdata : Py.contains c (Sax.escape_with v Sax.quoteattr_entities) = false).
  { unfold Sax.escape_with, Sax.quoteattr_entities. cbn [Sax.dict_replace].
    destruct Hc; subst c.
    - rewrite !(replace_keeps "<"%char) by reflexivity. now apply replace_removes.
    - rewrite !(replace_keeps ">"%char) by reflexivity. now apply replace_removes. }
  unfold Sax.quoteattr.
  set (data := Sax.escape_with v Sax.quoteattr_entities) in *.
  destruct (Py.contains Py.DQUOTE data); [destruct (Py.contains Py.SQUOTE data) |];
    cbn [Py.contains]; rewrite contains_app; cbn [Py.contains];
    rewrite ?replace_keeps by (destruct Hc; subst c; reflexivity);
    rewrite Hdata; destruct Hc; subst c; reflexivity.
Qed.

(** X21: the attribute string holds neither [<] nor [>], whatever the
    keys and the values: an attribute cannot end the tag it is in. *)
Theorem attrs_str_has_no_angle_bracket (e : XmlElement) :
  Py.contains "<"%char (_get_attrs_str e) = false
  /\ Py.contains ">"%char (_get_attrs_str e) = false.
Proof.
  assert (Hboth : forall c, c = "<"%char \/ c = ">"%char ->
                    Py.contains c (_get_attrs_str e) = false).
  { intros c Hc. unfold _get_attrs_str. rewrite attr_decls_loop. cbn [app].
    apply contains_join.
    - destruct Hc; subst c; reflexivity.
    - apply Forall_forall. intros decl Hin.
      apply in_map_iff in Hin as [[key value] [Heq _]]. subst decl.
      unfold Spec.attr_decl. cbn [fst snd]. destruct value as [value|].
      + rewrite !contains_app, escape_has_no_angle_bracket by exact Hc.
        rewrite quoteattr_has_no_angle_bracket by exact Hc.
        destruct Hc; subst c; reflexivity.
      + now apply escape_has_no_angle_bracket. }
  split; apply Hboth; [now left | now right].
Qed.

Lemma println_ends_with_newline (s : IndentBase.IndentStringBuilder) (text : string) :
  exists body : string,
    IndentBase.get_string (IndentBase.println s text) = body ++ String Py.LF "".
Proof.
  rewrite get_string_println.
  eexists. rewrite <- !str_app_assoc. reflexivity.
Qed.

(** X22: the rendered form of every element ends with a newline,
    whatever its children, attributes, doctype and mode. *)
Theorem element_str_ends_with_newline (e : XmlElement) :
  exists body : string, __str__ e = body ++ String Py.LF "".
Proof.
  unfold __str__, element_str.
  destruct (is_empty (_children e));
    [ destruct (_html e && negb (member (_name e) HTML_VOID_TAGS))%bool
    | destruct (_html e && member (_name e) HTML_NOINDENT_TAGS)%bool ];
    destruct (is_empty (_attrs e));
    apply println_ends_with_newline.
Qed.

End RenderMore.

Section RenderChildren.

Import Xml Shape.
Import IndentBase.

Implicit Types (s : IndentStringBuilder).

Lemma indented_lines_app (unit : string) (depth : Z) (xs ys : list string) :
  indented_lines unit depth (xs ++ ys)
  = indented_lines unit depth xs ++ indented_lines unit depth ys.
Proof. unfold indented_lines. now rewrite map_app, join_empty_app. Qed.

Lemma print_children_at_line_start (children : list Node) s :
  _isnewline s = true ->
  get_string (fold_left (fun sb child => print_lines sb (str child)) children s)
  = get_string s
    ++ indented_lines (_indent_str s) (_il s)
         (flat_map (fun child => Py.splitlines (str child)) children)
  /\ _il (fold_left (fun sb child => print_lines sb (str child)) children s) = _il s
  /\ _indent_str (fold_left (fun sb child => print_lines sb (str child)) children s)
     = _indent_str s
  /\ _isnewline (fold_left (fun sb child => print_lines sb (str child)) children s)
     = true.
Proof.
  revert s. induction children as [|child children IH]; intros s Hs;
    cbn [fold_left flat_map].
  - unfold indented_lines. cbn [List.map]. change (Py.join "" []) with "".
    rewrite str_app_nil_r. repeat split. exact Hs.
  - destruct (printlns_at_line_start (Py.splitlines (str child)) s Hs)
      as (Hg & Hil & Hunit & _ & Hnl).
    fold (print_lines s (str child)) in Hg, Hil, Hunit, Hnl.
    destruct (IH (print_lines s (str child)) Hnl) as (Hg' & Hil' & Hunit' & Hnl').
    rewrite Hg', Hil', Hunit', Hnl', Hg, Hil, Hunit.
    repeat split. now rewrite indented_lines_app, str_app_assoc.
Qed.

Lemma unindent_keeps_output s (k : Z) :
  get_string (unindent s k) = get_string s
  /\ _indent_str (unindent s k) = _indent_str s
  /\ _isnewline (unindent s k) = _isnewline s.
Proof.
  unfold unindent, set_il, get_string. cbn.
  destruct (_il s - k <? 0); repeat split.
Qed.

(** The part of [__str__] that prints the children between the tags. *)
Lemma children_block (e : XmlElement) (open close : string) :
  get_string
    (__call__
       (fst (with_ (E := exn)
               (__call__ IndentStringBuilder__init__ (Some open))
               (fun sb =>
                  (fold_left (fun sb child => print_lines sb (str child))
                     (_children e) sb,
                   inl tt))))
       (Some close))
  = open ++ String Py.LF ""
    ++ indented_lines "    " 1 (child_lines e)
    ++ close ++ String Py.LF "".
Proof.
  cbn [__call__]. unfold with_, __enter__, __exit__. cbn [fst].
  set (s1 := println IndentStringBuilder__init__ open).
  assert (Hs1 : get_string s1 = open ++ String Py.LF ""
                /\ _il s1 = 0 /\ _indent_str s1 = "    " /\ _isnewline s1 = true).
  { subst s1. rewrite get_string_println.
    destruct (println_state IndentStringBuilder__init__ open) as (H1 & H2 & _ & H4).
    rewrite H1, H2, H4. repeat split. }
  destruct Hs1 as (Hg1 & Hil1 & Hu1 & Hn1).
  set (s2 := indent s1 1).
  assert (Hn2 : _isnewline s2 = true) by exact Hn1.
  destruct (print_children_at_line_start (_children e) s2 Hn2) as (Hg3 & Hil3 & Hu3 & Hn3).
  set (s3 := fold_left (fun sb child => print_lines sb (str child)) (_children e) s2) in *.
  destruct (unindent_keeps_output s3 1) as (Hg4 & Hu4 & Hn4).
  rewrite get_string_println, Hg4, Hu4, Hn4, Hn3, Hg3, Hu3.
  rewrite il_unindent, Hil3.
  change (get_string s2) with (get_string s1).
  change (_indent_str s2) with (_indent_str s1).
  change (_il s2) with (_il s1 + 1).
  rewrite Hg1, Hu1, Hil1.
  change (Py.str_mul "    " (Z.max 0 (0 + 1 - 1))) with "".
  change (0 + 1) with 1.
  unfold child_lines. rewrite !str_app_assoc. reflexivity.
Qed.

(** X23: an element with children, outside the no-indent case, renders
    as its opening tag on one line, then every line of every rendered
    child, in order, each after four spaces and on a line of its own,
    then its closing tag on one line. *)
Theorem element_with_children_str (e : XmlElement) :
  _children e <> [] ->
  _doctype e = None ->
  (_html e && member (_name e) HTML_NOINDENT_TAGS)%bool = false ->
  __str__ e
  = open_tag e ++ String Py.LF ""
    ++ indented_lines "    " 1 (child_lines e)
    ++ close_tag e ++ String Py.LF "".
Proof.
  intros Hchildren Hdoctype Hnoindent.
  unfold __str__, element_str. rewrite Hdoctype, Hnoindent.
  destruct (_children e) as [|child children] eqn:Ec; [congruence |].
  cbn [is_empty]. rewrite <- Ec. unfold open_tag, close_tag.
  destruct (is_empty (_attrs e)); apply children_block.
Qed.


Lemma indent_after_chunks (chunks : list string) s (k : Z) :
  indent (after_chunks chunks s) k = after_chunks chunks (indent s k).
Proof. reflexivity. Qed.

Lemma unindent_after_chunks (chunks : list string) s (k : Z) :
  unindent (after_chunks chunks s) k = after_chunks chunks (unindent s k).
Proof.
  unfold unindent, set_il, after_chunks. cbn.
  destruct (_il s - k <? 0); reflexivity.
Qed.

Lemma print_children_after_chunks (chunks : list string) (children : list Node) s :
  fold_left (fun sb child => print_lines sb (str child)) children (after_chunks chunks s)
  = after_chunks chunks
      (fold_left (fun sb child => print_lines sb (str child)) children s).
Proof.
  revert s. induction children as [|child children IH]; intros s; cbn [fold_left].
  - reflexivity.
  - now rewrite print_lines_after_chunks, IH.
Qed.

(** The first line printed after the doctype line: the engine is then
    at line start at depth 0, and puts an empty prefix before it. *)
Lemma println_after_doctype (line text : string) :
  println (println IndentStringBuilder__init__ line) text
  = after_chunks [line; String Py.LF ""; ""] (println IndentStringBuilder__init__ text).
Proof. reflexivity. Qed.

(** X25: the doctype goes on a line of its own before everything else:
    an element given a doctype renders as the line [<!doctype ...>]
    followed by what it rendered as without one. *)
Theorem doctype_line_comes_first (e : XmlElement) (d : string) :
  _doctype e = None ->
  __str__ (doctype e d)
  = ("<!doctype " ++ d ++ ">") ++ String Py.LF "" ++ __str__ e.
Proof.
  intros Hdoctype.
  assert (Hattrs : _get_attrs_str (doctype e d) = _get_attrs_str e) by reflexivity.
  unfold __str__, element_str. rewrite Hattrs.
  cbn [doctype _doctype _name _html _children _attrs]. rewrite Hdoctype.
  set (line := "<!doctype " ++ d ++ ">").
  assert (Hframe : forall chunk s,
             get_string (after_chunks [line; String Py.LF ""; chunk] s)
             = line ++ String Py.LF "" ++ chunk ++ get_string s).
  { intros chunk s. rewrite get_string_after_chunks.
    rewrite !join_empty_cons. change (Py.join "" []) with "".
    now rewrite str_app_nil_r, !str_app_assoc. }
  destruct (is_empty (_children e));
    [ destruct (_html e && negb (member (_name e) HTML_VOID_TAGS))%bool
    | destruct (_html e && member (_name e) HTML_NOINDENT_TAGS)%bool ];
    destruct (is_empty (_attrs e));
    cbn [__call__];
    rewrite println_after_doctype;
    try (rewrite Hframe; reflexivity);
    unfold with_, __enter__, __exit__; cbn [fst];
    rewrite indent_after_chunks, print_children_after_chunks,
      unindent_after_chunks, println_after_chunks, Hframe;
    reflexivity.
Qed.

End RenderChildren.

Section RenderChildrenExamples.

Import Xml Shape.

Lemma element_with_children_str_witness :
  let li := fst (apply [] (__init__ "li" None false) [Str "a"] []) in
  let ul := fst (apply [] (__init__ "ul" None false) [Child (Element li); Str "b"] []) in
  (_children ul <> [] /\ _doctype ul = None
   /\ (_html ul && member (_name ul) HTML_NOINDENT_TAGS)%bool = false)
  /\ __str__ ul
     = open_tag ul ++ String Py.LF ""
       ++ indented_lines "    " 1 ["<li>"; "    a"; "</li>"; "b"]
       ++ close_tag ul ++ String Py.LF "".
Proof.
  cbv zeta. split; [repeat split; discriminate |].
  refine (element_with_children_str
            (fst (apply [] (__init__ "ul" None false)
                    [Child (Element (fst (apply [] (__init__ "li" None false) [Str "a"] [])));
                     Str "b"] [])) _ _ _).
  - discriminate.
  - reflexivity.
  - reflexivity.
Defined.


Lemma doctype_line_comes_first_witness :
  let e := fst (apply [] (__init__ "html" None true) [Str "x"] []) in
  _doctype e = None
  /\ __str__ (doctype e "html")
     = ("<!doctype " ++ "html" ++ ">") ++ String Py.LF "" ++ __str__ e.
Proof.
  cbv zeta. split; [reflexivity |].
  exact (doctype_line_comes_first
           (fst (apply [] (__init__ "html" None true) [Str "x"] [])) "html" eq_refl).
Defined.

End RenderChildrenExamples.

(** ** The factories *)
Section FactoryFacts.

Import Xml Shape.

(** Both factories made at import are HTML factories. *)
Lemma module_factories_are_html :
  Factory.__html Factory.xml = true /\ Factory.__html Factory.html = true.
Proof. split; reflexivity. Qed.

(** X26: what a factory builds.  [factory.name(args, kwargs)] works on a
    new element with the tag asked for, the mode of the factory and no
    doctype; its attribute keys are unique; a factory that is not in
    HTML mode never fails; an HTML factory never gives a void tag a
    child. *)
Theorem factory_builds (order : list string) (f : Factory.XmlFactory)
    (name : string) (args : list arg) (kwargs : OrderedDict) :
  let out := Factory.__call__ order (Factory.__getattr__ f name) args kwargs in
  _name (fst out) = name
  /\ _html (fst out) = Factory.__html f
  /\ _doctype (fst out) = None
  /\ NoDup (keys (_attrs (fst out)))
  /\ (Factory.__html f = false -> snd out = None)
  /\ (Factory.__html f = true -> In name HTML_VOID_TAGS -> _children (fst out) = []).
Proof.
  cbv zeta. unfold Factory.__call__, Factory.__getattr__, Factory.XmlFunctor__init__.
  cbn [Factory._element_name Factory._html].
  set (node := __init__ name None (Factory.__html f)).
  assert (Hfields : (_name (fst (apply order node args kwargs)) = name
                     /\ _html (fst (apply order node args kwargs)) = Factory.__html f
                     /\ _doctype (fst (apply order node args kwargs)) = None)
                    /\ NoDup (keys (_attrs (fst (apply order node args kwargs))))).
  { apply (apply_preserves order
             (fun self => (_name self = name /\ _html self = Factory.__html f
                           /\ _doctype self = None)
                          /\ NoDup (keys (_attrs self)))).
    - intros self key value [Hid Hkeys]. split; [exact Hid |].
      cbn [set_attrs _attrs]. now apply setitem_keeps_keys_unique.
    - intros self child H _. exact H.
    - repeat split. constructor. }
  destruct Hfields as [(Hn & Hh & Hd) Hkeys].
  repeat split; try assumption.
  - intros Hxml. now apply apply_in_xml_mode.
  - intros Hhtml Hvoid. apply member_In in Hvoid.
    apply (apply_preserves order
             (fun self => (_html self = true /\ member (_name self) HTML_VOID_TAGS = true)
                          /\ _children self = [])).
    + intros self key value H. exact H.
    + intros self child [[Hh' Hv'] _] Hguard. rewrite Hh', Hv' in Hguard.
      discriminate Hguard.
    + repeat split; assumption.
Qed.

End FactoryFacts.

Section ScopeOutput.

Import IndentBase Shape.

(** X27: what is printed inside a [with] block that starts at line
    start is indented one level more than outside: every line has the
    prefix for depth [d + 1], and once the block is left the depth is
    [d] again. *)
Theorem with_block_indents_one_level (s : IndentStringBuilder) (text : string) :
  0 <= _il s ->
  _isnewline s = true ->
  let after :=
    fst (with_ (E := unit) s (fun w => (print_lines w text, inl tt))) in
  get_string after
  = get_string s ++ indented_lines (_indent_str s) (_il s + 1) (Py.splitlines text)
  /\ _il after = _il s
  /\ _isnewline after = true.
Proof.
  intros Hil Hnl after. subst after.
  unfold with_, __enter__, __exit__. cbn [fst].
  assert (Hnl' : _isnewline (indent s 1) = true) by exact Hnl.
  destruct (printlns_at_line_start (Py.splitlines text) (indent s 1) Hnl')
    as (Hg & Hil' & _ & _ & Hnl'').
  fold (print_lines (indent s 1) text) in Hg, Hil', Hnl''.
  destruct (unindent_keeps_output (print_lines (indent s 1) text) 1) as (Hg4 & _ & Hn4).
  rewrite Hg4, Hn4, Hnl'', Hg, il_unindent, Hil', il_indent.
  repeat split. lia.
Qed.

Lemma with_block_indents_one_level_witness :
  let s : IndentStringBuilder := println (indent IndentStringBuilder__init__ 1) "{" in
  (0 <= _il s /\ _isnewline s = true)
  /\ get_string (fst (with_ (E := unit) s (fun w => (print_lines w "x;", inl tt))))
     = get_string s ++ indented_lines "    " 2 ["x;"].
Proof.
  cbv zeta.
  assert (Hil : 0 <= _il (println (indent IndentStringBuilder__init__ 1) "{"))
    by (simpl; lia).
  split; [split; [exact Hil | reflexivity] |].
  exact (proj1 (with_block_indents_one_level
                  (println (indent IndentStringBuilder__init__ 1) "{") "x;"
                  Hil eq_refl)).
Defined.

End ScopeOutput.

Section ConstructorFacts.

Import Xml Shape.

(** X28: an element made with attributes has unique attribute keys, and
    each key has the last value given for it; made without attributes it
    has none.  It has no children and no doctype. *)
Theorem init_attributes (name : string) (attrs : OrderedDict) (html : bool)
    (key : string) :
  NoDup (keys (_attrs (__init__ name (Some attrs) html)))
  /\ getitem (_attrs (__init__ name (Some attrs) html)) key = getitem (rev attrs) key
  /\ _attrs (__init__ name None html) = []
  /\ _children (__init__ name (Some attrs) html) = []
  /\ _doctype (__init__ name (Some attrs) html) = None.
Proof.
  cbn [__init__ _attrs _children _doctype]. repeat split.
  - apply (update_steps (fun d => NoDup (keys d))).
    + intros d k v Hd. now apply setitem_keeps_keys_unique.
    + constructor.
  - rewrite getitem_update. now destruct (getitem (rev attrs) key).
Qed.



End ConstructorFacts.
